(** * Google Cast device client: the [Cast] state cache and request facade.

    A shallow embedding of [googlecast.Cast] (constructor, connect and
    disconnect, the state merge operations and the request methods) with
    the properties its specification states about them.

    The device embeds a [connection], which owns the protocol [channel];
    neither is defined next to [Cast]. They enter the development as an
    interface ([Collaborators]), and every theorem about the device holds
    for any implementation of it. Calls across that interface are recorded
    as events, so that "issues one outbound request" is a statement about
    the list of events a call emits.

    The read/write mutex of the device is not modelled: the methods are
    embedded with their sequential meaning. *)

From Stdlib Require Import ZArith List Bool Ascii String.
From Stdlib Require Import SpecFloat.
From stdpp Require Import base option strings gmap list pretty.

Local Open Scope string_scope.
Local Open Scope list_scope.
Local Open Scope Z_scope.

(** ** Values shared with the collaborators *)

(** [float32]: IEEE 754 binary32 values, with the comparisons of the
    standard ([<], [>] and [==] are false as soon as an operand is NaN). *)
Definition float32 : Type := spec_float.

Definition f32_zero : float32 := S754_zero false.
Definition f32_one : float32 := S754_finite false 8388608 (-23).

(** [x < y], [x > y], [x == y] and [x <= y] on [float32]. *)
Definition f32_lt (x y : float32) : bool := SFltb x y.
Definition f32_gt (x y : float32) : bool := SFltb y x.
Definition f32_eq (x y : float32) : bool := SFeqb x y.
Definition f32_le (x y : float32) : bool := SFleb x y.

Definition f32_is_nan (x : float32) : bool :=
  match x with S754_nan => true | _ => false end.

(** [[]byte] *)
Definition bytes : Type := list Byte.byte.

(** [net.IP] is a byte slice. *)
Definition IP : Type := list Byte.byte.

(** A send-only Go channel handed to the connection, known by its identity. *)
Definition chan : Type := nat.

(** The [Volume] and [App] values merged into the device. Their
    declarations are not part of the device's file: [Volume] is built
    positionally from a level and a mute flag, and [App] is read through
    [DisplayName] and [TransportId]. *)
Record Volume : Type := mkVolume { Level : float32; Muted : bool }.

Record App : Type := mkApp {
  AppId : string;
  DisplayName : string;
  TransportId : string;
  StatusText : string
}.

(** [gopi.CastFlag] values returned by the merge operations. *)
Inductive CastFlag : Type :=
| CAST_FLAG_NONE
| CAST_FLAG_VOLUME
| CAST_FLAG_APP.

(** Errors. [ErrNotFound] and [ErrOutOfOrder] are the two [gopi] errors the
    device raises itself, with the prefix given to [WithPrefix]; [ErrOther]
    stands for any other error of a collaborator (transport, encoding);
    [ErrMulti] is a [*multierror.Error]. *)
#[warnings="-register-all"] Inductive error : Type :=
| ErrNotFound (prefix : list string)
| ErrOutOfOrder (prefix : list string)
| ErrOther (msg : string)
| ErrMulti (errs : list error).

Definition is_out_of_order (e : error) : bool :=
  match e with ErrOutOfOrder _ => true | _ => false end.

Definition is_not_found (e : error) : bool :=
  match e with ErrNotFound _ => true | _ => false end.

(** [multierror.Append(err, e)]: the errors of [err] (none when [err] is
    nil) followed by [e], a multierror on either side being flattened. *)
Definition multierror_Append (err : option error) (e : error) : error :=
  let old := match err with
             | None => []
             | Some (ErrMulti es) => es
             | Some x => [x]
             end in
  ErrMulti (old ++ match e with ErrMulti es => es | _ => [e] end).

(** ** Service records and their TXT tuples *)

(** What [NewCastFromRecord] reads of a [gopi.ServiceRecord]. *)
Record ServiceRecord : Type := mkServiceRecord {
  Port : Z;              (* uint16 *)
  Addrs : list IP;
  Txt : list string
}.

(** The split of [r] at its first ["="], when it has one. *)
Fixpoint cut_eq (r : string) : option (string * string) :=
  match r with
  | EmptyString => None
  | String c r' =>
      if Ascii.eqb c "="%char then Some (EmptyString, r')
      else match cut_eq r' with
           | Some (k, v) => Some (String c k, v)
           | None => None
           end
  end.

(** [strings.SplitN(r, "=", 2)] *)
Definition SplitN_eq2 (r : string) : list string :=
  match cut_eq r with
  | Some (k, v) => [k; v]
  | None => [r]
  end.

(** The key and the value an entry of the TXT list stands for. *)
Definition txt_key (r : string) : string :=
  match cut_eq r with Some (k, _) => k | None => r end.
Definition txt_value (r : string) : string :=
  match cut_eq r with Some (_, v) => v | None => "" end.

Definition txtToMap (txt : list string) : gmap string string :=
  foldl (fun (result : gmap string string) (r : string) =>
           match SplitN_eq2 r with
           | [k; v] => <[k := v]> result
           | [k] => <[k := ""]> result
           | _ => result
           end) ∅ txt.

(** What makes a service record a device: a TXT id that is not empty, a
    port and an address. *)
Definition valid_record (r : ServiceRecord) : Prop :=
  (exists i, txtToMap (Txt r) !! "id" = Some i /\ i <> "")
  /\ Port r <> 0 /\ Addrs r <> [].

(** The TXT list read by hand, on the strings themselves. An entry has
    the key [k] when it is [k] alone or [k] followed by ["="] and a value;
    the list gives [k] the value [v] when its last entry of key [k] is
    [k=v], or is [k] alone and [v] is empty. (For keys that hold no
    ["="].) *)
Definition txt_has_key (k e : string) : Prop :=
  e = k \/ exists v, e = (k ++ "=" ++ v)%string.

Definition txt_binds (txt : list string) (k v : string) : Prop :=
  exists before e later,
    txt = before ++ e :: later
    /\ (e = (k ++ "=" ++ v)%string \/ (e = k /\ v = ""))
    /\ Forall (fun e' => ~ txt_has_key k e') later.

(** ** The connection and its channel, seen from the device *)

(** The outbound intents of the protocol channel: one per encode method
    ([channel.GetStatus], [channel.LaunchAppWithId], ...). *)
Inductive Intent : Type :=
| GetStatus
| LaunchAppWithId (appId : string)
| SetVolumeIntent (v : Volume)
| SetMutedIntent (muted : bool)
| ConnectMedia (transportId : string)
| LoadUrl (transportId url mimetype : string) (autoplay : bool).

(** What the device asks of its collaborators, in call order. *)
Inductive Event : Type :=
| EvConnect (id addr : string) (timeout : Z) (errs state : chan)
| EvDisconnect
| EvEncode (i : Intent)
| EvSend (data : bytes).

Definition is_send (e : Event) : bool :=
  match e with EvSend _ => true | _ => false end.

(** Number of frames handed to the transport. *)
Definition sends (tr : list Event) : nat := length (List.filter is_send tr).

(** The intents encoded on the channel, in order. *)
Definition encodes (tr : list Event) : list Intent :=
  omap (fun e => match e with EvEncode i => Some i | _ => None end) tr.

(** The code the device calls and does not define: the embedded
    [connection] with its [channel], [Equals] on the cached values, and
    the functions of the Go library. Every operation on the connection
    takes its state and returns the new one. *)
Class Collaborators (connection : Type) : Type := {
  (** the zero connection of [new(Cast)] *)
  connection_zero : connection;
  (** [connection.Connect(id, addr, timeout, errs, state)] *)
  connection_Connect :
    string -> string -> Z -> chan -> chan -> connection -> option error * connection;
  (** [connection.Disconnect()] *)
  connection_Disconnect : connection -> option error * connection;
  (** [connection.send(data)] *)
  connection_send : bytes -> connection -> option error * connection;
  (** the encode methods of [connection.channel]: message id, payload, error *)
  channel_encode : Intent -> connection -> (Z * bytes * option error) * connection;
  (** [Volume.Equals] and [App.Equals] *)
  Volume_Equals : Volume -> Volume -> bool;
  App_Equals : App -> App -> bool;
  (** [strconv.ParseUint(s, base, bitSize)], [None] when it returns an error *)
  strconv_ParseUint : string -> Z -> Z -> option Z;
  (** width of [uint] on the platform *)
  uint_size : Z;
  (** [fmt.Sprintf("%v:%v", ip, port)] *)
  fmt_Sprintf_addr : IP -> Z -> string;
  (** [*url.URL] and its [String()] *)
  URL : Type;
  URL_String : URL -> string;
  (** the [Media] values of the channel *)
  Media : Type
}.

Definition isnil {A : Type} (p : option A) : bool :=
  match p with None => true | Some _ => false end.

Section Device.

Context {connection : Type} `{!Collaborators connection}.

(** ** The device *)

Record Cast : Type := mkCast {
  conn : connection;
  (* Data about the cast device *)
  id : string; fn : string;
  md : string; rs : string;
  st : Z;
  ips : list IP;
  port : Z;
  (* State information *)
  volume : option Volume;
  app : option App
}.

(** [new(Cast)] *)
Definition new_Cast : Cast :=
  mkCast connection_zero "" "" "" "" 0 [] 0 None None.

Definition with_conn (c : Cast) (x : connection) : Cast :=
  mkCast x (id c) (fn c) (md c) (rs c) (st c) (ips c) (port c) (volume c) (app c).
Definition with_id (c : Cast) (x : string) : Cast :=
  mkCast (conn c) x (fn c) (md c) (rs c) (st c) (ips c) (port c) (volume c) (app c).
Definition with_fn (c : Cast) (x : string) : Cast :=
  mkCast (conn c) (id c) x (md c) (rs c) (st c) (ips c) (port c) (volume c) (app c).
Definition with_md (c : Cast) (x : string) : Cast :=
  mkCast (conn c) (id c) (fn c) x (rs c) (st c) (ips c) (port c) (volume c) (app c).
Definition with_rs (c : Cast) (x : string) : Cast :=
  mkCast (conn c) (id c) (fn c) (md c) x (st c) (ips c) (port c) (volume c) (app c).
Definition with_st (c : Cast) (x : Z) : Cast :=
  mkCast (conn c) (id c) (fn c) (md c) (rs c) x (ips c) (port c) (volume c) (app c).
Definition with_ips (c : Cast) (x : list IP) : Cast :=
  mkCast (conn c) (id c) (fn c) (md c) (rs c) (st c) x (port c) (volume c) (app c).
Definition with_port (c : Cast) (x : Z) : Cast :=
  mkCast (conn c) (id c) (fn c) (md c) (rs c) (st c) (ips c) x (volume c) (app c).
Definition with_volume (c : Cast) (x : option Volume) : Cast :=
  mkCast (conn c) (id c) (fn c) (md c) (rs c) (st c) (ips c) (port c) x (app c).
Definition with_app (c : Cast) (x : option App) : Cast :=
  mkCast (conn c) (id c) (fn c) (md c) (rs c) (st c) (ips c) (port c) (volume c) x.

(** *** Lifecycle *)

Definition NewCastFromRecord (r : ServiceRecord) : option Cast :=
  let this := new_Cast in
  (* Set addr and port *)
  if Port r =? 0 then None else
  let this := with_port this (Port r) in
  if (length (Addrs r) =? 0)%nat then None else
  let this := with_ips this (Addrs r) in
  (* Set properties *)
  let tuples := txtToMap (Txt r) in
  match tuples !! "id" with
  | Some i =>
      if negb (String.eqb i "") then
        let this := with_id this i in
        let this :=
          match tuples !! "fn" with
          | Some f => if negb (String.eqb f "") then with_fn this f
                      else with_fn this (id this)
          | None => with_fn this (id this)
          end in
        let this :=
          match tuples !! "md" with
          | Some m => with_md this m
          | None => this
          end in
        let this :=
          match tuples !! "rs" with
          | Some s => with_rs this s
          | None => this
          end in
        let this :=
          match tuples !! "st" with
          | Some s =>
              match strconv_ParseUint s 0 64 with
              | Some n => with_st this (n mod 2 ^ uint_size)
              | None => this
              end
          | None => this
          end in
        Some this
      else None
  | None => None
  end.

(** *** Methods as state transformers

    A method of [*Cast] takes the device, returns a value and the device
    as it leaves it, and emits the calls it made to the collaborators. *)

Definition M (A : Type) : Type := Cast -> A * Cast * list Event.

Definition ret {A : Type} (a : A) : M A := fun this => (a, this, []).

Definition bind {A B : Type} (m : M A) (k : A -> M B) : M B :=
  fun this =>
    let '(a, this1, tr1) := m this in
    let '(b, this2, tr2) := k a this1 in
    (b, this2, tr1 ++ tr2).

Definition get_this : M Cast := fun this => (this, this, []).

Definition modify_this (f : Cast -> Cast) : M unit :=
  fun this => (tt, f this, []).

(** *** Properties *)

Definition Id (this : Cast) : string := id this.
Definition Name (this : Cast) : string := fn this.
Definition Model (this : Cast) : string := md this.

Definition Service (this : Cast) : string :=
  match app this with
  | Some a => if negb (String.eqb (DisplayName a) "") then DisplayName a else rs this
  | None => rs this
  end.

Definition State (this : Cast) : Z := st this.

(** The value, the final device and the emitted calls of a run. *)
Definition result {A : Type} (r : A * Cast * list Event) : A := fst (fst r).
Definition final {A : Type} (r : A * Cast * list Event) : Cast := snd (fst r).
Definition trace {A : Type} (r : A * Cast * list Event) : list Event := snd r.

(** Calls into the embedded connection and its channel. *)

Definition connection_Connect_call (i addr : string) (timeout : Z) (errs state : chan)
  : M (option error) :=
  fun this =>
    let '(err, x) := connection_Connect i addr timeout errs state (conn this) in
    (err, with_conn this x, [EvConnect i addr timeout errs state]).

Definition connection_Disconnect_call : M (option error) :=
  fun this =>
    let '(err, x) := connection_Disconnect (conn this) in
    (err, with_conn this x, [EvDisconnect]).

Definition send (data : bytes) : M (option error) :=
  fun this =>
    let '(err, x) := connection_send data (conn this) in
    (err, with_conn this x, [EvSend data]).

Definition channel (i : Intent) : M (Z * bytes * option error) :=
  fun this =>
    let '(r, x) := channel_encode i (conn this) in
    (r, with_conn this x, [EvEncode i]).

(** The error, if any, of encoding [i] and of sending [data] on [x]. *)
Definition encode_err (i : Intent) (x : connection) : option error :=
  snd (fst (channel_encode i x)).
Definition send_err (data : bytes) (x : connection) : option error :=
  fst (connection_send data x).

End Device.

Arguments Cast connection : clear implicits.
Arguments M connection A : clear implicits.

Declare Scope cast_scope.
Delimit Scope cast_scope with cast.
Notation "x <- m ;; k" := (bind m (fun x => k))
  (at level 20, m at level 99, k at level 200) : cast_scope.
Notation "' pat <- m ;; k" := (bind m (fun x => match x with pat => k end))
  (at level 20, pat pattern, m at level 99, k at level 200) : cast_scope.

Section Methods.

Context {connection : Type} `{!Collaborators connection}.
Local Open Scope cast_scope.

Definition ConnectWithTimeout (timeout : Z) (errs state : chan)
  : M connection (option error) :=
  this <- get_this ;;
  (* Get an address to connect to: [len(this.ips) == 0], else [this.ips[0]] *)
  match ips this with
  | [] => ret (Some (ErrNotFound ["ConnectWithTimeout"; "No Address"]))
  | ip0 :: _ =>
      (* Use first IP *)
      let addr := fmt_Sprintf_addr ip0 (port this) in
      err <- connection_Connect_call (Id this) addr timeout errs state ;;
      match err with
      | Some e => ret (Some e)
      | None =>
          (* Set state *)
          _ <- modify_this (fun this => with_volume this None) ;;
          _ <- modify_this (fun this => with_app this None) ;;
          (* Return success *)
          ret None
      end
  end.

Definition Disconnect : M connection (option error) :=
  let result : option error := None in
  (* Disconnect *)
  err <- connection_Disconnect_call ;;
  let result :=
    match err with
    | Some e => Some (multierror_Append result e)
    | None => result
    end in
  (* Set state *)
  _ <- modify_this (fun this => with_volume this None) ;;
  _ <- modify_this (fun this => with_app this None) ;;
  ret result.

(** "Encode + send": the step every request method spells out, encode
    the intent on the channel, return the error if there is one, otherwise
    send the payload and return what [send] returns. *)
Definition request (i : Intent) : M connection (option error) :=
  '(_, data, err) <- channel i ;;
  match err with
  | Some e => ret (Some e)
  | None => send data
  end.

(** *** State *)

Definition UpdateStatus : M connection (option error) :=
  this <- get_this ;;
  if isnil (volume this) || isnil (app this) then
    '(_, data, err) <- channel GetStatus ;;
    match err with
    | Some e => ret (Some e)
    | None =>
        err <- send data ;;
        match err with
        | Some e => ret (Some e)
        | None => ret None (* Return success *)
        end
    end
  else
    (* Return success *)
    ret None.

Definition SetVolume (v : Volume) : M connection (CastFlag * option error) :=
  this <- get_this ;;
  if match volume this with
     | None => true
     | Some cur => Bool.eqb (Volume_Equals cur v) false
     end
  then
    _ <- modify_this (fun this => with_volume this (Some v)) ;;
    ret (CAST_FLAG_VOLUME, None)
  else
    ret (CAST_FLAG_NONE, None).

Definition SetApp (a : App) : M connection (CastFlag * option error) :=
  this <- get_this ;;
  if match app this with
     | None => true
     | Some cur => Bool.eqb (App_Equals cur a) false
     end
  then
    _ <- modify_this (fun this => with_app this (Some a)) ;;
    ret (CAST_FLAG_APP, None)
  else
    ret (CAST_FLAG_NONE, None).

(** Prints the media and merges nothing. *)
Definition SetMedia (m : Media) : M connection (CastFlag * option error) :=
  ret (CAST_FLAG_NONE, None).

(** *** Requests *)

Definition ReqLaunchAppWithId (appId : string) : M connection (option error) :=
  '(_, data, err) <- channel (LaunchAppWithId appId) ;;
  match err with
  | Some e => ret (Some e)
  | None =>
      err <- send data ;;
      match err with
      | Some e => ret (Some e)
      | None => ret None
      end
  end.

Definition ReqVolumeLevel (level : float32) : M connection (option error) :=
  (* Clamp value between 0.0 and 1.0 *)
  let level :=
    if f32_lt level f32_zero then f32_zero
    else if f32_gt level f32_one then f32_one
    else level in
  let v := mkVolume level false in
  let v := if f32_eq level f32_zero then mkVolume f32_zero true else v in
  '(_, data, err) <- channel (SetVolumeIntent v) ;;
  match err with
  | Some e => ret (Some e)
  | None =>
      err <- send data ;;
      match err with
      | Some e => ret (Some e)
      | None => ret None
      end
  end.

Definition ReqMuted (muted : bool) : M connection (option error) :=
  '(_, data, err) <- channel (SetMutedIntent muted) ;;
  match err with
  | Some e => ret (Some e)
  | None =>
      err <- send data ;;
      match err with
      | Some e => ret (Some e)
      | None => ret None
      end
  end.

Definition ReqLoadURL (url : URL) (mimetype : string) (autoplay : bool)
  : M connection (option error) :=
  this <- get_this ;;
  (* ConnectMedia *)
  match app this with
  | None => ret (Some (ErrOutOfOrder ["transportId"]))
  | Some a =>
      if String.eqb (TransportId a) "" then ret (Some (ErrOutOfOrder ["transportId"]))
      else
        '(_, data, err) <- channel (ConnectMedia (TransportId a)) ;;
        match err with
        | Some e => ret (Some e)
        | None =>
            err <- send data ;;
            match err with
            | Some e => ret (Some e)
            | None =>
                (* LoadUrl *)
                '(_, data, err) <-
                  channel (LoadUrl (TransportId a) (URL_String url) mimetype autoplay) ;;
                match err with
                | Some e => ret (Some e)
                | None =>
                    err <- send data ;;
                    match err with
                    | Some e => ret (Some e)
                    | None => ret None
                    end
                end
            end
        end
  end.

(** *** The life of a device

    The methods that can change a device, as operations, and the device
    after a sequence of them. The accessors ([Id], [Name], [Model],
    [Service], [State]) only read it. *)
Inductive Op : Type :=
| OpConnectWithTimeout (timeout : Z) (errs state : chan)
| OpDisconnect
| OpUpdateStatus
| OpSetVolume (v : Volume)
| OpSetApp (a : App)
| OpSetMedia (m : Media)
| OpReqLaunchAppWithId (appId : string)
| OpReqVolumeLevel (level : float32)
| OpReqMuted (muted : bool)
| OpReqLoadURL (url : URL) (mimetype : string) (autoplay : bool).

Definition exec (o : Op) (this : Cast connection) : Cast connection :=
  match o with
  | OpConnectWithTimeout timeout errs state =>
      final (ConnectWithTimeout timeout errs state this)
  | OpDisconnect => final (Disconnect this)
  | OpUpdateStatus => final (UpdateStatus this)
  | OpSetVolume v => final (SetVolume v this)
  | OpSetApp a => final (SetApp a this)
  | OpSetMedia m => final (SetMedia m this)
  | OpReqLaunchAppWithId appId => final (ReqLaunchAppWithId appId this)
  | OpReqVolumeLevel level => final (ReqVolumeLevel level this)
  | OpReqMuted muted => final (ReqMuted muted this)
  | OpReqLoadURL url mimetype autoplay => final (ReqLoadURL url mimetype autoplay this)
  end.

Definition exec_all (ops : list Op) (this : Cast connection) : Cast connection :=
  foldl (fun this o => exec o this) this ops.

End Methods.

(** ** A receiver to run the device against *)

(** Modelled from the spec: the connection and channel of the device
    (sections 4.2 and 4.3), whose code is not part of the device's file.
    The connection is in one of three states; [Connect] fails with an
    ordering error when already connected and with a not-found error when
    the receiver is unreachable; [Disconnect] is idempotent; [send] fails
    with a transport error unless the connection is established; every
    encode operation returns a fresh correlation identifier with its
    payload. *)
Inductive ConnectionState : Type :=
| Disconnected
| Connecting
| Connected.

Record spec_connection : Type := mkConnection {
  state : ConnectionState;
  reachable : bool;   (* does the receiver answer a connect within the deadline *)
  messageId : Z       (* last correlation identifier issued by the channel *)
}.

Definition is_connected (x : spec_connection) : bool :=
  match state x with Connected => true | _ => false end.

Definition transport_error : error := ErrOther "transport".

Definition spec_Connect (i addr : string) (timeout : Z) (errs st : chan)
    (x : spec_connection) : option error * spec_connection :=
  match state x with
  | Connected => (Some (ErrOutOfOrder ["Connect"]), x)
  | _ =>
      if reachable x
      then (None, mkConnection Connected (reachable x) (messageId x))
      else (Some (ErrNotFound ["Connect"; addr]),
            mkConnection Disconnected (reachable x) (messageId x))
  end.

Definition spec_Disconnect (x : spec_connection) : option error * spec_connection :=
  (None, mkConnection Disconnected (reachable x) (messageId x)).

Definition spec_send (data : bytes) (x : spec_connection) : option error * spec_connection :=
  if is_connected x then (None, x) else (Some transport_error, x).

Definition spec_payload (i : Intent) : string :=
  match i with
  | GetStatus => "GET_STATUS"
  | LaunchAppWithId appId => "LAUNCH " ++ appId
  | SetVolumeIntent v =>
      if Muted v then "SET_VOLUME muted"
      else if f32_eq (Level v) f32_one then "SET_VOLUME full" else "SET_VOLUME level"
  | SetMutedIntent m => if m then "SET_MUTED true" else "SET_MUTED false"
  | ConnectMedia t => "CONNECT " ++ t
  | LoadUrl t u mime autoplay =>
      "LOAD " ++ t ++ " " ++ u ++ " " ++ mime ++ (if autoplay then " autoplay" else "")
  end.

Definition spec_encode (i : Intent) (x : spec_connection)
  : (Z * bytes * option error) * spec_connection :=
  let n := messageId x + 1 in
  ((n, list_byte_of_string (spec_payload i ++ " #" ++ pretty n), None),
   mkConnection (state x) (reachable x) n).

(** Modelled from the spec: value equality of the cached values (section
    4.1, "value-equality comparison"), field by field with Go's [==]. *)
Definition spec_Volume_Equals (v other : Volume) : bool :=
  f32_eq (Level v) (Level other) && Bool.eqb (Muted v) (Muted other).

Definition spec_App_Equals (a other : App) : bool :=
  String.eqb (AppId a) (AppId other) && String.eqb (DisplayName a) (DisplayName other)
  && String.eqb (TransportId a) (TransportId other)
  && String.eqb (StatusText a) (StatusText other).

(** *** The Go library functions of the receiver

    [strconv.ParseUint] and the formatting of [net.IP] by
    [fmt.Sprintf("%v:%v", ip, port)], written after the Go library. *)

(** The bytes of a string, as numbers. *)
Definition codes (s : string) : list Z :=
  map (fun c => Z.of_N (N_of_ascii c)) (list_ascii_of_string s).

(** [lower(c)]: [c | ('x' - 'X')] *)
Definition lower (c : Z) : Z := Z.lor c 32.

(** The value of a digit or letter, as the loop of [ParseUint] reads it. *)
Definition digit_val (c : Z) : option Z :=
  if (48 <=? c) && (c <=? 57) then Some (c - 48)
  else if (97 <=? lower c) && (lower c <=? 122) then Some (lower c - 97 + 10)
  else None.

(** The digit loop of [ParseUint]: the number read and whether an
    underscore was seen, [None] on a character that is no digit of the
    base. *)
Fixpoint parse_digits (base : Z) (base0 : bool) (cs : list Z) (n : Z)
    (underscores : bool) : option (Z * bool) :=
  match cs with
  | [] => Some (n, underscores)
  | c :: cs' =>
      if (c =? 95) && base0 then parse_digits base base0 cs' n true
      else
        match digit_val c with
        | Some d =>
            if base <=? d then None
            else parse_digits base base0 cs' (n * base + d) underscores
        | None => None
        end
  end.

(** What [underscoreOK] saw last: the beginning, a digit, an underscore,
    or something else. *)
Inductive Saw : Type := SawBegin | SawDigit | SawUnderscore | SawOther.

Fixpoint underscore_scan (hex : bool) (saw : Saw) (cs : list Z) : bool :=
  match cs with
  | [] => match saw with SawUnderscore => false | _ => true end
  | c :: cs' =>
      if ((48 <=? c) && (c <=? 57))
         || (hex && ((97 <=? lower c) && (lower c <=? 102)))
      then underscore_scan hex SawDigit cs'
      else if c =? 95 then
        match saw with
        | SawDigit => underscore_scan hex SawUnderscore cs'
        | _ => false
        end
      else
        match saw with
        | SawUnderscore => false
        | _ => underscore_scan hex SawOther cs'
        end
  end.

(** [underscoreOK(s)]: underscores only between digits, or between the
    base prefix and a digit. *)
Definition underscoreOK (cs : list Z) : bool :=
  let cs := match cs with
            | c :: rest => if (c =? 45) || (c =? 43) then rest else cs
            | [] => cs
            end in
  match cs with
  | 48 :: p :: rest =>
      if (lower p =? 98) || (lower p =? 111) || (lower p =? 120)
      then underscore_scan (lower p =? 120) SawDigit rest
      else underscore_scan false SawBegin cs
  | _ => underscore_scan false SawBegin cs
  end.

(** [strconv.ParseUint(s, base, bitSize)], [None] for every error (syntax,
    range, base, bit size). With base 0 the base is read off the prefix:
    ["0b"], ["0o"] and ["0x"] before at least one more character, a
    leading ["0"] for octal, decimal otherwise. *)
Definition spec_ParseUint (s : string) (base bitSize : Z) : option Z :=
  let s0 := codes s in
  match s0 with
  | [] => None
  | c0 :: _ =>
      let base0 := base =? 0 in
      let chosen : option (Z * list Z) :=
        if (2 <=? base) && (base <=? 36) then Some (base, s0)
        else if base0 then
          if c0 =? 48 then
            match s0 with
            | _ :: c1 :: c2 :: rest =>
                if lower c1 =? 98 then Some (2, c2 :: rest)
                else if lower c1 =? 111 then Some (8, c2 :: rest)
                else if lower c1 =? 120 then Some (16, c2 :: rest)
                else Some (8, c1 :: c2 :: rest)
            | _ :: rest => Some (8, rest)
            | [] => None
            end
          else Some (10, s0)
        else None in
      match chosen with
      | None => None
      | Some (b, digits) =>
          let bits := if bitSize =? 0 then 64 else bitSize in
          if (bits <? 0) || (64 <? bits) then None
          else
            match parse_digits b base0 digits 0 false with
            | None => None
            | Some (n, underscores) =>
                if 2 ^ bits - 1 <? n then None
                else if underscores && negb (underscoreOK s0) then None
                else Some n
            end
      end
  end.

Definition hexDigit (n : Z) : string :=
  String.substring (Z.to_nat n) 1 "0123456789abcdef".

(** [hexString(b)]: two digits a byte. *)
Definition hexString (b : list Byte.byte) : string :=
  String.concat ""
    (map (fun x => let n := Z.of_N (Byte.to_N x) in
                   (hexDigit (Z.shiftr n 4) ++ hexDigit (Z.land n 15))%string) b).

(** A 16-bit group in hexadecimal, without leading zeros. *)
Definition appendHex (g : Z) : string :=
  if g <? 16 then hexDigit g
  else if g <? 256 then hexDigit (Z.shiftr g 4) ++ hexDigit (Z.land g 15)
  else if g <? 4096 then
    hexDigit (Z.shiftr g 8) ++ hexDigit (Z.land (Z.shiftr g 4) 15) ++ hexDigit (Z.land g 15)
  else
    hexDigit (Z.shiftr g 12) ++ hexDigit (Z.land (Z.shiftr g 8) 15)
    ++ hexDigit (Z.land (Z.shiftr g 4) 15) ++ hexDigit (Z.land g 15).

(** The eight 16-bit groups of a 16-byte address. *)
Fixpoint groups (b : list Z) : list Z :=
  match b with
  | hi :: lo :: rest => (Z.shiftl hi 8 + lo) :: groups rest
  | _ => []
  end.

Fixpoint zero_run (gs : list Z) : nat :=
  match gs with
  | g :: gs' => if g =? 0 then S (zero_run gs') else O
  | [] => O
  end.

(** The longest run of at least two zero groups, the leftmost of the
    longest: its first group and the group after its last. *)
Fixpoint longest_zero_run (i : nat) (gs : list Z) (best : nat * nat) : nat * nat :=
  match gs with
  | [] => best
  | _ :: gs' =>
      let l := zero_run gs in
      let best' :=
        if ((2 <=? l) && (snd best - fst best <? l))%nat then (i, (i + l)%nat)
        else best in
      longest_zero_run (S i) gs' best'
  end.

Fixpoint render6 (fuel i : nat) (gs : list Z) (zero : nat * nat) : string :=
  match fuel with
  | O => ""
  | S fuel' =>
      if (8 <=? i)%nat then ""
      else if ((i =? fst zero) && (fst zero <? snd zero))%nat then
        "::" ++ (if (8 <=? snd zero)%nat then ""
                 else appendHex (nth (snd zero) gs 0)
                      ++ render6 fuel' (S (snd zero)) gs zero)
      else
        (if (0 <? i)%nat then ":" else "") ++ appendHex (nth i gs 0)
        ++ render6 fuel' (S i) gs zero
  end.

Definition dotted (b : list Byte.byte) : string :=
  String.concat "." (map (fun x => pretty (Byte.to_N x)) b).

(** [ip.String()] *)
Definition IP_String (ip : IP) : string :=
  match length ip with
  | O => "<nil>"
  | 4%nat => dotted ip
  | 16%nat =>
      let b := map (fun x => Z.of_N (Byte.to_N x)) ip in
      if forallb (Z.eqb 0) (firstn 10 b)
         && (nth 10 b 0 =? 255) && (nth 11 b 0 =? 255)
      then dotted (skipn 12 ip)
      else
        let gs := groups b in
        render6 9 0 gs (longest_zero_run 0 gs (0%nat, 0%nat))
  | _ => "?" ++ hexString ip
  end.

(** [fmt.Sprintf("%v:%v", ip, port)] for an [ip] of type [net.IP] and a
    [uint16] port. *)
Definition spec_Sprintf_addr (ip : IP) (p : Z) : string :=
  IP_String ip ++ ":" ++ pretty p.

#[global] Instance receiver : Collaborators spec_connection := {|
  connection_zero := mkConnection Disconnected true 0;
  connection_Connect := spec_Connect;
  connection_Disconnect := spec_Disconnect;
  connection_send := spec_send;
  channel_encode := spec_encode;
  Volume_Equals := spec_Volume_Equals;
  App_Equals := spec_App_Equals;
  strconv_ParseUint := spec_ParseUint;
  uint_size := 64;
  fmt_Sprintf_addr := spec_Sprintf_addr;
  URL := string;
  URL_String := fun u => u;
  Media := string
|}.

(** Modelled from the spec: a channel whose encoder fails (section 4.1
    has requests propagate encode errors), on the connection of the
    receiver. *)
Definition encode_error : error := ErrOther "encode".

Definition refusing_encode (i : Intent) (x : spec_connection)
  : (Z * bytes * option error) * spec_connection :=
  ((0, [], Some encode_error), x).

Definition refusing_channel : Collaborators spec_connection := {|
  connection_zero := mkConnection Disconnected true 0;
  connection_Connect := spec_Connect;
  connection_Disconnect := spec_Disconnect;
  connection_send := spec_send;
  channel_encode := refusing_encode;
  Volume_Equals := spec_Volume_Equals;
  App_Equals := spec_App_Equals;
  strconv_ParseUint := spec_ParseUint;
  uint_size := 64;
  fmt_Sprintf_addr := spec_Sprintf_addr;
  URL := string;
  URL_String := fun u => u;
  Media := string
|}.

(** The record of the specification's scenario: id ["abc123"], no friendly
    name, port 8009, one address 10.0.0.5. *)
Definition abc123_record : ServiceRecord :=
  mkServiceRecord 8009 [[Byte.x0a; Byte.x00; Byte.x00; Byte.x05]] ["id=abc123"; "fn="].

(** A device as the constructor leaves it, and the same device connected. *)
Definition abc123 : Cast spec_connection :=
  mkCast (mkConnection Disconnected true 0) "abc123" "abc123" "" "" 0
         [[Byte.x0a; Byte.x00; Byte.x00; Byte.x05]] 8009 None None.

Definition abc123_connected : Cast spec_connection :=
  with_conn abc123 (mkConnection Connected true 0).

Definition half_volume : Volume := mkVolume (S754_finite false 8388608 (-24)) false.
Definition backdrop : App := mkApp "E8C28D3C" "Backdrop" "transport-1" "".

(** A device whose caches are filled while its connection has dropped. *)
Definition abc123_dropped : Cast spec_connection :=
  with_app (with_volume abc123 (Some half_volume)) (Some backdrop).

(** The [float32] values nearest to -0.3 and 1.7. *)
Definition f32_minus_0_3 : float32 := S754_finite true 10066330 (-25).
Definition f32_1_7 : float32 := S754_finite false 14260634 (-23).

(** ** Runs of a device *)

Section Runs.

Context {connection : Type} `{!Collaborators connection}.

(** The calls one operation makes to the collaborators. *)
Definition exec_trace (o : Op) (this : Cast connection) : list Event :=
  match o with
  | OpConnectWithTimeout timeout errs state =>
      trace (ConnectWithTimeout timeout errs state this)
  | OpDisconnect => trace (Disconnect this)
  | OpUpdateStatus => trace (UpdateStatus this)
  | OpSetVolume v => trace (SetVolume v this)
  | OpSetApp a => trace (SetApp a this)
  | OpSetMedia m => trace (SetMedia m this)
  | OpReqLaunchAppWithId appId => trace (ReqLaunchAppWithId appId this)
  | OpReqVolumeLevel level => trace (ReqVolumeLevel level this)
  | OpReqMuted muted => trace (ReqMuted muted this)
  | OpReqLoadURL url mimetype autoplay => trace (ReqLoadURL url mimetype autoplay this)
  end.

(** The calls of a sequence of operations, in order. *)
Fixpoint trace_all (ops : list Op) (this : Cast connection) : list Event :=
  match ops with
  | [] => []
  | o :: ops' => exec_trace o this ++ trace_all ops' (exec o this)
  end.

(** The two operations that open and close the connection. *)
Definition is_lifecycle (o : Op) : bool :=
  match o with
  | OpConnectWithTimeout _ _ _ | OpDisconnect => true
  | _ => false
  end.

(** The operations of the dispatch path, which merge received state. *)
Definition is_merge (o : Op) : bool :=
  match o with
  | OpSetVolume _ | OpSetApp _ | OpSetMedia _ => true
  | _ => false
  end.

Definition is_connect_op (o : Op) : bool :=
  match o with OpConnectWithTimeout _ _ _ => true | _ => false end.

Definition is_disconnect_op (o : Op) : bool :=
  match o with OpDisconnect => true | _ => false end.

End Runs.

Definition is_connect (e : Event) : bool :=
  match e with EvConnect _ _ _ _ _ => true | _ => false end.

Definition is_disconnect (e : Event) : bool :=
  match e with EvDisconnect => true | _ => false end.

(** Number of connection attempts and of teardowns in a trace. *)
Definition connects (tr : list Event) : nat := length (List.filter is_connect tr).
Definition disconnects (tr : list Event) : nat := length (List.filter is_disconnect tr).

(** The characters of a string. *)
Definition chars (s : string) : list ascii := list_ascii_of_string s.

(** * Properties *)

(** ** [float32] comparisons *)

Lemma SFcompare_antisym (x y : float32) :
  SFcompare y x = CompOpp <$> SFcompare x y.
Proof.
  destruct x as [sx|sx| |sx mx ex], y as [sy|sy| |sy my ey]; simpl;
    try reflexivity; try (destruct sx; reflexivity); try (destruct sy; reflexivity);
    try (destruct sx, sy; reflexivity).
  destruct sx, sy; simpl; try reflexivity;
    rewrite (Z.compare_antisym ex ey); destruct (ex ?= ey)%Z; simpl;
    try reflexivity; f_equal;
    rewrite (Pos.compare_cont_antisym mx my Eq); reflexivity.
Qed.

Lemma SFcompare_None (x y : float32) :
  SFcompare x y = None -> f32_is_nan x = true \/ f32_is_nan y = true.
Proof.
  destruct x as [sx|sx| |sx mx ex], y as [sy|sy| |sy my ey]; simpl;
    intros E; try discriminate E; auto.
Qed.

Lemma f32_not_lt_le (x y : float32) :
  f32_is_nan x = false -> f32_is_nan y = false ->
  f32_lt x y = false -> f32_le y x = true.
Proof.
  unfold f32_lt, f32_le, SFltb, SFleb. intros Hx Hy.
  rewrite (SFcompare_antisym x y).
  destruct (SFcompare x y) as [[]|] eqn:E; simpl; try reflexivity; try discriminate.
  destruct (SFcompare_None _ _ E); congruence.
Qed.

Lemma f32_lt_not_eq (x y : float32) : f32_lt x y = true -> f32_eq x y = false.
Proof.
  unfold f32_lt, f32_eq, SFltb, SFeqb.
  destruct (SFcompare x y) as [[]|]; simpl; congruence.
Qed.

(** ** TXT tuples *)

(** The key and value one TXT entry stands for. *)
Lemma SplitN_eq2_cases (r : string) :
  (exists k v, cut_eq r = Some (k, v) /\ SplitN_eq2 r = [k; v])
  \/ (cut_eq r = None /\ SplitN_eq2 r = [r]).
Proof.
  unfold SplitN_eq2. destruct (cut_eq r) as [[k v]|]; eauto.
Qed.

(** [cut_eq] splits at the first ["="]: the key has none, and key, ["="]
    and value give the entry back. *)
Lemma cut_eq_Some (r k v : string) :
  cut_eq r = Some (k, v) -> r = (k ++ "=" ++ v)%string /\ cut_eq k = None.
Proof.
  revert k v. induction r as [|c r IH]; intros k v; simpl; [discriminate|].
  destruct (Ascii.eqb c "=") eqn:Ec.
  - intros [= <- <-]. apply Ascii.eqb_eq in Ec. subst c. split; reflexivity.
  - destruct (cut_eq r) as [[k' v']|]; [|discriminate].
    intros [= <- <-]. destruct (IH k' v' eq_refl) as [-> Hk].
    split; [reflexivity|]. simpl. rewrite Ec, Hk. reflexivity.
Qed.

Lemma txtToMap_snoc (txt : list string) (r : string) :
  txtToMap (txt ++ [r]) = <[txt_key r := txt_value r]> (txtToMap txt).
Proof.
  unfold txtToMap. rewrite foldl_snoc. unfold SplitN_eq2, txt_key, txt_value.
  destruct (cut_eq r) as [[k v]|]; reflexivity.
Qed.

(** Entries with other keys leave the lookup of [k] alone. *)
Lemma txtToMap_app_other (txt later : list string) (k : string) :
  Forall (fun r => txt_key r <> k) later ->
  txtToMap (txt ++ later) !! k = txtToMap txt !! k.
Proof.
  induction later as [|r later IH] using rev_ind; intros Hl.
  - rewrite app_nil_r. reflexivity.
  - apply Forall_app in Hl as [Hl Hr]. apply Forall_inv in Hr.
    rewrite app_assoc, txtToMap_snoc, lookup_insert_ne by exact Hr.
    apply IH, Hl.
Qed.

(** The last entry of a key decides its lookup. *)
Lemma txtToMap_lookup_last (txt later : list string) (r : string) :
  Forall (fun r' => txt_key r' <> txt_key r) later ->
  txtToMap (txt ++ r :: later) !! txt_key r = Some (txt_value r).
Proof.
  intros Hl. rewrite (cons_middle r), app_assoc, (txtToMap_app_other _ _ _ Hl).
  rewrite txtToMap_snoc. apply lookup_insert_eq.
Qed.

(** A key that no entry has is absent. *)
Lemma txtToMap_lookup_None (txt : list string) (k : string) :
  Forall (fun r => txt_key r <> k) txt -> txtToMap txt !! k = None.
Proof.
  intros Hl. rewrite <- (app_nil_l txt), (txtToMap_app_other [] txt k Hl).
  apply lookup_empty.
Qed.

Lemma cut_eq_join (k v : string) :
  cut_eq k = None -> cut_eq (k ++ "=" ++ v)%string = Some (k, v).
Proof.
  induction k as [|c k IH]; simpl; [reflexivity|].
  destruct (Ascii.eqb c "="); [discriminate|].
  destruct (cut_eq k) as [[k' v']|]; [discriminate|].
  intros _. rewrite (IH eq_refl). reflexivity.
Qed.

(** The entry that decides a bound key: the last one with the key. *)
Lemma txtToMap_lookup_inv (txt : list string) (k v : string) :
  txtToMap txt !! k = Some v ->
  exists before r later,
    txt = before ++ r :: later
    /\ txt_key r = k /\ txt_value r = v
    /\ Forall (fun r' => txt_key r' <> k) later.
Proof.
  induction txt as [|r txt IH] using rev_ind.
  - unfold txtToMap. simpl. rewrite lookup_empty. discriminate.
  - rewrite txtToMap_snoc. destruct (decide (txt_key r = k)) as [Hk|Hk].
    + rewrite Hk, lookup_insert_eq. intros [= <-]. exists txt, r, []. auto.
    + rewrite lookup_insert_ne by exact Hk. intros Hv.
      destruct (IH Hv) as (before & r0 & later & -> & Hk0 & Hv0 & Hl).
      exists before, r0, (later ++ [r]). rewrite <- app_assoc. simpl.
      repeat split; auto. apply Forall_app. split; [exact Hl|].
      constructor; [exact Hk|constructor].
Qed.

(** Key and value of an entry, on the strings. *)
Lemma txt_key_has_key (k e : string) :
  cut_eq k = None -> txt_key e = k <-> txt_has_key k e.
Proof.
  intros Hk. unfold txt_key, txt_has_key. split.
  - destruct (cut_eq e) as [[k' v']|] eqn:E; intros <-; [|left; reflexivity].
    right. exists v'. apply (cut_eq_Some _ _ _ E).
  - intros [->|[v ->]].
    + rewrite Hk. reflexivity.
    + rewrite (cut_eq_join k v Hk). reflexivity.
Qed.

Lemma txt_entry_cases (k v e : string) :
  cut_eq k = None ->
  txt_key e = k /\ txt_value e = v
  <-> e = (k ++ "=" ++ v)%string \/ (e = k /\ v = "").
Proof.
  intros Hk. unfold txt_key, txt_value. split.
  - destruct (cut_eq e) as [[k' v']|] eqn:E; intros [<- <-]; [|right; auto].
    left. apply (cut_eq_Some _ _ _ E).
  - intros [->|[-> ->]].
    + rewrite (cut_eq_join k v Hk). auto.
    + rewrite Hk. auto.
Qed.

(** The map of the code and the list read by hand agree. *)
Lemma txtToMap_binds (txt : list string) (k v : string) :
  cut_eq k = None -> txtToMap txt !! k = Some v <-> txt_binds txt k v.
Proof.
  intros Hk. unfold txt_binds. split.
  - intros H. apply txtToMap_lookup_inv in H as (before & e & later & -> & Hkey & Hval & Hl).
    exists before, e, later. split; [reflexivity|].
    split; [apply (txt_entry_cases k v e Hk); auto|].
    eapply Forall_impl; [exact Hl|]. intros e' Hne Hhas.
    apply Hne, (txt_key_has_key k e' Hk), Hhas.
  - intros (before & e & later & -> & He & Hl).
    apply (txt_entry_cases k v e Hk) in He as [<- <-].
    apply txtToMap_lookup_last.
    eapply Forall_impl; [exact Hl|]. intros e' Hno Hkey.
    apply Hno. apply txt_key_has_key; [|exact Hkey].
    unfold txt_key in Hkey |- *.
    destruct (cut_eq e) as [[k' v']|] eqn:E; [|exact E].
    apply cut_eq_Some in E as [_ E]. exact E.
Qed.

Section DeviceProperties.

Context {connection : Type} `{!Collaborators connection}.

(** ** Construction *)

(** The constructor in terms of the TXT map: a device exactly for the
    records the map gives a non-empty id, with a port and an address, and
    the fields the device takes from the map. *)
Lemma NewCastFromRecord_map (r : ServiceRecord) :
  match NewCastFromRecord r with
  | Some this =>
      valid_record r
      /\ txtToMap (Txt r) !! "id" = Some (Id this)
      /\ Name this = match txtToMap (Txt r) !! "fn" with
                     | Some f => if decide (f = "") then Id this else f
                     | None => Id this
                     end
      /\ Model this = default "" (txtToMap (Txt r) !! "md")
      /\ rs this = default "" (txtToMap (Txt r) !! "rs")
      /\ port this = Port r /\ ips this = Addrs r
      /\ volume this = None /\ app this = None
  | None => ~ valid_record r
  end.
Proof.
  unfold NewCastFromRecord, valid_record.
  destruct (Z.eqb_spec (Port r) 0) as [Hp|Hp].
  { intros (_ & Hp' & _). exact (Hp' Hp). }
  destruct (Addrs r) as [|ip0 rest] eqn:Ha; simpl.
  { intros (_ & _ & Ha'). exact (Ha' eq_refl). }
  destruct (txtToMap (Txt r) !! "id") as [i|] eqn:Hi.
  2:{ intros ((i & Hi' & _) & _). discriminate Hi'. }
  destruct (String.eqb_spec i "") as [He|He]; simpl.
  { intros ((i' & [= ->] & Hne) & _). exact (Hne He). }
  assert (Hst : forall c : Cast connection,
             Id (match txtToMap (Txt r) !! "st" with
                 | Some s => match strconv_ParseUint s 0 64 with
                             | Some n => with_st c (n mod 2 ^ uint_size)
                             | None => c
                             end
                 | None => c
                 end) = Id c) by
    (intros c; destruct (_ !! "st") as [s|]; [destruct (strconv_ParseUint s 0 64)|];
     reflexivity).
  destruct (txtToMap (Txt r) !! "fn") as [f|];
    [destruct (String.eqb_spec f "") as [Hf|Hf]; simpl;
     (destruct (decide (f = "")) as [Hd|Hd]; [|]; try contradiction)|];
    destruct (txtToMap (Txt r) !! "md") as [m|];
    destruct (txtToMap (Txt r) !! "rs") as [s|];
    (destruct (txtToMap (Txt r) !! "st") as [t|];
     [destruct (strconv_ParseUint t 0 64)|]);
    simpl; repeat split; eauto; discriminate.
Qed.

(** C1. [NewCastFromRecord] returns a device exactly for the records with
    a non-zero port, at least one address and a TXT id that is not empty,
    the TXT id being the value of the last entry [id=...] of the TXT list.
    The device then carries that id and the port and addresses of the
    record; its name is the TXT friendly name (the last [fn=...]) when
    there is one and it is not empty, and the id otherwise; model and
    status text are those of the last [md=...] and [rs=...], empty when
    there is none; and both caches start unknown. *)
Theorem NewCastFromRecord_spec (r : ServiceRecord) :
  match NewCastFromRecord r with
  | Some this =>
      Port r <> 0 /\ Addrs r <> []
      /\ Id this <> "" /\ txt_binds (Txt r) "id" (Id this)
      /\ ((exists f, txt_binds (Txt r) "fn" f /\ f <> "" /\ Name this = f)
          \/ ((forall f, txt_binds (Txt r) "fn" f -> f = "") /\ Name this = Id this))
      /\ ((exists m, txt_binds (Txt r) "md" m /\ Model this = m)
          \/ ((forall m, ~ txt_binds (Txt r) "md" m) /\ Model this = ""))
      /\ ((exists s, txt_binds (Txt r) "rs" s /\ rs this = s)
          \/ ((forall s, ~ txt_binds (Txt r) "rs" s) /\ rs this = ""))
      /\ port this = Port r /\ ips this = Addrs r
      /\ volume this = None /\ app this = None
  | None =>
      ~ (Port r <> 0 /\ Addrs r <> []
         /\ exists i, txt_binds (Txt r) "id" i /\ i <> "")
  end.
Proof.
  pose proof (NewCastFromRecord_map r) as Hmap.
  assert (Hb : forall k v, In k ["id"; "fn"; "md"; "rs"] ->
             txtToMap (Txt r) !! k = Some v <-> txt_binds (Txt r) k v).
  { intros k v Hk. apply txtToMap_binds.
    destruct Hk as [<-|[<-|[<-|[<-|[]]]]]; reflexivity. }
  destruct (NewCastFromRecord r) as [this|].
  - destruct Hmap as (((i & Hi & Hne) & Hp & Ha) & Hid & Hname & Hmd & Hrs & Hrest).
    assert (i = Id this) as -> by congruence.
    split; [exact Hp|]. split; [exact Ha|]. split; [exact Hne|].
    split; [apply Hb; [simpl; tauto|exact Hid]|].
    split; [|split; [|split; [|exact Hrest]]].
    + destruct (txtToMap (Txt r) !! "fn") as [f|] eqn:Hf.
      * destruct (decide (f = "")) as [->|Hfne].
        -- right. split; [|exact Hname]. intros f' Hf'.
           apply Hb in Hf'; [|simpl; tauto]. congruence.
        -- left. exists f. split; [apply Hb; [simpl; tauto|exact Hf]|]. auto.
      * right. split; [|exact Hname]. intros f' Hf'.
        apply Hb in Hf'; [|simpl; tauto]. congruence.
    + destruct (txtToMap (Txt r) !! "md") as [m|] eqn:Hm.
      * left. exists m. split; [apply Hb; [simpl; tauto|exact Hm]|exact Hmd].
      * right. split; [|exact Hmd]. intros m' Hm'.
        apply Hb in Hm'; [|simpl; tauto]. congruence.
    + destruct (txtToMap (Txt r) !! "rs") as [t|] eqn:Ht.
      * left. exists t. split; [apply Hb; [simpl; tauto|exact Ht]|exact Hrs].
      * right. split; [|exact Hrs]. intros t' Ht'.
        apply Hb in Ht'; [|simpl; tauto]. congruence.
  - intros (Hp & Ha & i & Hi & Hne). apply Hmap. unfold valid_record.
    split; [|auto]. exists i. split; [|exact Hne]. apply Hb; [simpl; tauto|exact Hi].
Qed.

(** ** Encode and send *)

Lemma request_run (i : Intent) (this : Cast connection) :
  request i this =
    let '(_, data, err, x) := channel_encode i (conn this) in
    match err with
    | Some e => (Some e, with_conn this x, [EvEncode i])
    | None =>
        let '(err', x') := connection_send data x in
        (err', with_conn this x', [EvEncode i; EvSend data])
    end.
Proof.
  unfold request, bind, channel, send, ret.
  destruct (channel_encode i (conn this)) as [[[n data] [e|]] x]; simpl; [reflexivity|].
  destruct (connection_send data x) as [err' x']; reflexivity.
Qed.

(** A request encodes its intent once, sends at most one frame, and sends
    it exactly when the encoding succeeded. *)
Lemma request_trace (i : Intent) (this : Cast connection) :
  encodes (trace (request i this)) = [i]
  /\ sends (trace (request i this)) =
       match encode_err i (conn this) with None => 1%nat | Some _ => 0%nat end.
Proof.
  rewrite request_run. unfold encode_err.
  destruct (channel_encode i (conn this)) as [[[n data] [e|]] x]; simpl; [split; reflexivity|].
  destruct (connection_send data x) as [err' x']; split; reflexivity.
Qed.

(** A request touches the connection only. *)
Lemma request_final (i : Intent) (this : Cast connection) :
  exists x, final (request i this) = with_conn this x.
Proof.
  rewrite request_run.
  destruct (channel_encode i (conn this)) as [[[n data] [e|]] x]; simpl; [eauto|].
  destruct (connection_send data x) as [err' x']; eauto.
Qed.

(** An encoding error is returned as it is, and so is the error of [send]. *)
Lemma request_result (i : Intent) (this : Cast connection) :
  result (request i this) =
    match encode_err i (conn this) with
    | Some e => Some e
    | None =>
        send_err (snd (fst (fst (channel_encode i (conn this)))))
                 (snd (channel_encode i (conn this)))
    end.
Proof.
  rewrite request_run. unfold encode_err, send_err.
  destruct (channel_encode i (conn this)) as [[[n data] [e|]] x]; simpl; [reflexivity|].
  destruct (connection_send data x) as [err' x']; reflexivity.
Qed.

Ltac request_shape :=
  unfold request, bind, channel, send, ret;
  match goal with
  | |- context [channel_encode ?i ?x] =>
      destruct (channel_encode i x) as [[[? ?data] [?|]] ?x']; simpl; [reflexivity|];
      destruct (connection_send data x') as [[?|] ?]; reflexivity
  end.

Lemma ReqLaunchAppWithId_request (appId : string) (this : Cast connection) :
  ReqLaunchAppWithId appId this = request (LaunchAppWithId appId) this.
Proof. unfold ReqLaunchAppWithId. request_shape. Qed.

Lemma ReqMuted_request (muted : bool) (this : Cast connection) :
  ReqMuted muted this = request (SetMutedIntent muted) this.
Proof. unfold ReqMuted. request_shape. Qed.

(** The volume [ReqVolumeLevel] hands to the channel. *)
Lemma ReqVolumeLevel_request (level : float32) (this : Cast connection) :
  ReqVolumeLevel level this =
    request (SetVolumeIntent
               (if f32_lt level f32_zero then mkVolume f32_zero true
                else if f32_gt level f32_one then mkVolume f32_one false
                else if f32_eq level f32_zero then mkVolume f32_zero true
                else mkVolume level false)) this.
Proof.
  unfold ReqVolumeLevel.
  destruct (f32_lt level f32_zero); [simpl; request_shape|].
  destruct (f32_gt level f32_one); [simpl; request_shape|].
  destruct (f32_eq level f32_zero); request_shape.
Qed.

(** ** The methods, run *)

(** What a record that gives a device has, and what the device takes
    from it. *)
Lemma NewCastFromRecord_inv (r : ServiceRecord) (this : Cast connection) :
  NewCastFromRecord r = Some this ->
  Port r <> 0 /\ Addrs r <> []
  /\ txtToMap (Txt r) !! "id" = Some (id this) /\ id this <> "" /\ fn this <> ""
  /\ port this = Port r /\ ips this = Addrs r
  /\ volume this = None /\ app this = None.
Proof.
  unfold NewCastFromRecord.
  destruct (Z.eqb_spec (Port r) 0) as [Hp|Hp]; [discriminate|].
  destruct (Addrs r) as [|ip0 rest] eqn:Ha; simpl; [discriminate|].
  destruct (txtToMap (Txt r) !! "id") as [i|] eqn:Hi; [|discriminate].
  destruct (String.eqb_spec i "") as [He|He]; simpl; [discriminate|].
  destruct (txtToMap (Txt r) !! "fn") as [f|];
    [destruct (String.eqb_spec f "") as [Hf|Hf]; simpl|];
    destruct (txtToMap (Txt r) !! "md") as [m|];
    destruct (txtToMap (Txt r) !! "rs") as [s|];
    (destruct (txtToMap (Txt r) !! "st") as [t|];
     [destruct (strconv_ParseUint t 0 64)|]);
    intros [= <-]; simpl; repeat split; auto; discriminate.
Qed.

Lemma NewCastFromRecord_valid (r : ServiceRecord) :
  valid_record r -> is_Some (NewCastFromRecord r).
Proof.
  intros ((i & Hi & Hne) & Hp & Ha). unfold NewCastFromRecord.
  destruct (Z.eqb_spec (Port r) 0) as [Hp'|_]; [contradiction|].
  destruct (Addrs r) as [|ip0 rest]; [contradiction|]. simpl.
  rewrite Hi. destruct (String.eqb_spec i "") as [He|_]; [contradiction|].
  simpl. eexists. reflexivity.
Qed.

Lemma ConnectWithTimeout_run (timeout : Z) (errs st : chan) (this : Cast connection) :
  ConnectWithTimeout timeout errs st this =
    match ips this with
    | [] => (Some (ErrNotFound ["ConnectWithTimeout"; "No Address"]), this, [])
    | ip0 :: _ =>
        let addr := fmt_Sprintf_addr ip0 (port this) in
        let attempt := connection_Connect (id this) addr timeout errs st (conn this) in
        (fst attempt,
         match fst attempt with
         | None => with_app (with_volume (with_conn this (snd attempt)) None) None
         | Some _ => with_conn this (snd attempt)
         end,
         [EvConnect (id this) addr timeout errs st])
    end.
Proof.
  unfold ConnectWithTimeout, bind, get_this, connection_Connect_call, modify_this, ret, Id.
  simpl. destruct (ips this) as [|ip0 rest]; [reflexivity|]. simpl.
  destruct (connection_Connect _ _ _ _ _ _) as [[e|] x]; reflexivity.
Qed.

Lemma Disconnect_run (this : Cast connection) :
  Disconnect this =
    let teardown := connection_Disconnect (conn this) in
    (match fst teardown with
     | Some e => Some (multierror_Append None e)
     | None => None
     end,
     with_app (with_volume (with_conn this (snd teardown)) None) None,
     [EvDisconnect]).
Proof.
  unfold Disconnect, bind, connection_Disconnect_call, modify_this, ret.
  destruct (connection_Disconnect (conn this)) as [[e|] x]; reflexivity.
Qed.

Lemma SetVolume_run (v : Volume) (this : Cast connection) :
  SetVolume v this =
    match volume this with
    | Some cur =>
        if Volume_Equals cur v then ((CAST_FLAG_NONE, None), this, [])
        else ((CAST_FLAG_VOLUME, None), with_volume this (Some v), [])
    | None => ((CAST_FLAG_VOLUME, None), with_volume this (Some v), [])
    end.
Proof.
  unfold SetVolume, bind, get_this, modify_this, ret. simpl.
  destruct (volume this) as [cur|]; [destruct (Volume_Equals cur v)|]; reflexivity.
Qed.

Lemma SetApp_run (a : App) (this : Cast connection) :
  SetApp a this =
    match app this with
    | Some cur =>
        if App_Equals cur a then ((CAST_FLAG_NONE, None), this, [])
        else ((CAST_FLAG_APP, None), with_app this (Some a), [])
    | None => ((CAST_FLAG_APP, None), with_app this (Some a), [])
    end.
Proof.
  unfold SetApp, bind, get_this, modify_this, ret. simpl.
  destruct (app this) as [cur|]; [destruct (App_Equals cur a)|]; reflexivity.
Qed.

Lemma UpdateStatus_run (this : Cast connection) :
  UpdateStatus this =
    if isnil (volume this) || isnil (app this)
    then request GetStatus this
    else (None, this, []).
Proof.
  unfold UpdateStatus, bind, get_this. simpl.
  destruct (isnil (volume this) || isnil (app this)); [|reflexivity].
  request_shape.
Qed.

Lemma ReqLoadURL_run (url : URL) (mimetype : string) (autoplay : bool)
    (this : Cast connection) :
  ReqLoadURL url mimetype autoplay this =
    match app this with
    | None => (Some (ErrOutOfOrder ["transportId"]), this, [])
    | Some a =>
        if String.eqb (TransportId a) ""
        then (Some (ErrOutOfOrder ["transportId"]), this, [])
        else
          let step1 := request (ConnectMedia (TransportId a)) this in
          match result step1 with
          | Some _ => step1
          | None =>
              let step2 :=
                request (LoadUrl (TransportId a) (URL_String url) mimetype autoplay)
                        (final step1) in
              (result step2, final step2, trace step1 ++ trace step2)
          end
    end.
Proof.
  unfold ReqLoadURL, bind, get_this.
  destruct (app this) as [a|] eqn:Ha; simpl; [|reflexivity].
  destruct (String.eqb (TransportId a) ""); [reflexivity|].
  rewrite !request_run. unfold channel, send, ret, result, final, trace.
  destruct (channel_encode (ConnectMedia (TransportId a)) (conn this))
    as [[[n1 data1] [e1|]] x1]; simpl; [reflexivity|].
  destruct (connection_send data1 x1) as [[e1'|] x1']; simpl; [reflexivity|].
  destruct (channel_encode _ x1') as [[[n2 data2] [e2|]] x2]; simpl; [reflexivity|].
  destruct (connection_send data2 x2) as [[e2'|] x2']; reflexivity.
Qed.

(** A load touches the connection only. *)
Lemma ReqLoadURL_final (url : URL) (mimetype : string) (autoplay : bool)
    (this : Cast connection) :
  exists x, final (ReqLoadURL url mimetype autoplay this) = with_conn this x.
Proof.
  rewrite ReqLoadURL_run.
  assert (Hthis : exists x, this = with_conn this x)
    by (exists (conn this); destruct this; reflexivity).
  destruct (app this) as [a|]; [|exact Hthis].
  destruct (String.eqb (TransportId a) ""); [exact Hthis|]. simpl.
  destruct (request_final (ConnectMedia (TransportId a)) this) as [x Hx].
  destruct (result (request (ConnectMedia (TransportId a)) this)) as [e|]; [eauto|].
  destruct (request_final
              (LoadUrl (TransportId a) (URL_String url) mimetype autoplay)
              (final (request (ConnectMedia (TransportId a)) this))) as [x' Hx'].
  exists x'. unfold final at 1. simpl.
  fold (final (request (LoadUrl (TransportId a) (URL_String url) mimetype autoplay)
                       (final (request (ConnectMedia (TransportId a)) this)))).
  rewrite Hx', Hx. reflexivity.
Qed.

(** ** Volume requests *)

(** On every level that is a number, [ReqVolumeLevel] requests a volume
    whose level lies in [0, 1]: the mute form (level 0, muted) when the
    level is at most 0, level 1 unmuted when it exceeds 1, and the level
    itself, unmuted, in between. *)
Lemma ReqVolumeLevel_clamps (level : float32) (this : Cast connection) :
  f32_is_nan level = false ->
  exists v : Volume,
    ReqVolumeLevel level this = request (SetVolumeIntent v) this
    /\ f32_le f32_zero (Level v) = true /\ f32_le (Level v) f32_one = true
    /\ (if f32_le level f32_zero then v = mkVolume f32_zero true
        else if f32_gt level f32_one then v = mkVolume f32_one false
        else v = mkVolume level false).
Proof.
  intros Hnan. rewrite ReqVolumeLevel_request.
  assert (Hle : f32_le level f32_zero = f32_lt level f32_zero || f32_eq level f32_zero).
  { unfold f32_le, f32_lt, f32_eq, SFleb, SFltb, SFeqb.
    destruct (SFcompare level f32_zero) as [[]|]; reflexivity. }
  rewrite Hle.
  destruct (f32_lt level f32_zero) eqn:Hlt; simpl.
  { eexists; split; [reflexivity|]. repeat split. }
  destruct (f32_gt level f32_one) eqn:Hgt.
  { assert (f32_eq level f32_zero = false) as ->.
    { unfold f32_gt, f32_eq, SFltb, SFeqb in *.
      destruct level as [[]|[]| |[] m e]; simpl in *; try discriminate; reflexivity. }
    eexists; split; [reflexivity|]. repeat split. }
  destruct (f32_eq level f32_zero) eqn:Heq.
  { eexists; split; [reflexivity|]. repeat split. }
  eexists; split; [reflexivity|]. simpl. repeat split.
  - apply f32_not_lt_le; [exact Hnan|reflexivity|exact Hlt].
  - apply f32_not_lt_le; [reflexivity|exact Hnan|exact Hgt].
Qed.

(** [ReqVolumeLevel(-0.3)] and [ReqVolumeLevel(0.0)] are the same request,
    the mute form, whatever the channel does with it. *)
Lemma ReqVolumeLevel_below_zero (this : Cast connection) :
  ReqVolumeLevel f32_minus_0_3 this = ReqVolumeLevel f32_zero this
  /\ ReqVolumeLevel f32_zero this =
       request (SetVolumeIntent (mkVolume f32_zero true)) this.
Proof. rewrite !ReqVolumeLevel_request. split; reflexivity. Qed.

(** [ReqVolumeLevel(1.7)] requests level 1.0, unmuted. *)
Lemma ReqVolumeLevel_above_one (this : Cast connection) :
  ReqVolumeLevel f32_1_7 this =
    request (SetVolumeIntent (mkVolume f32_one false)) this.
Proof. rewrite ReqVolumeLevel_request. reflexivity. Qed.

(** C2. The level is clamped by two comparisons, [level < 0.0] and
    [level > 1.0], and both are false on NaN: [ReqVolumeLevel(NaN)]
    requests the level NaN, unmuted, which is not a level of [0, 1]. *)
Theorem ReqVolumeLevel_NaN (this : Cast connection) :
  ReqVolumeLevel S754_nan this =
    request (SetVolumeIntent (mkVolume S754_nan false)) this
  /\ encodes (trace (ReqVolumeLevel S754_nan this)) =
       [SetVolumeIntent (mkVolume S754_nan false)]
  /\ f32_le f32_zero S754_nan = false /\ f32_le S754_nan f32_one = false.
Proof.
  rewrite ReqVolumeLevel_request. simpl.
  split; [reflexivity|]. split; [apply request_trace|]. split; reflexivity.
Qed.

(** ** Media load *)

(** C3. [ReqLoadURL] fails with the ordering error, calling nothing, when
    no app is cached or the cached app has an empty transport id.
    Otherwise it first binds the media channel to the transport id: it
    encodes [ConnectMedia] and hands the payload to [connection.send]. An
    error of the encoder or of [connection.send] in that step is the
    result, and nothing else is encoded or sent. Only when both succeeded
    is the load command ([LoadUrl]) encoded, on the connection as the
    first step left it, and sent; the result is then the error of that
    encoder or what [connection.send] returns. The caches are never
    changed. *)
Theorem ReqLoadURL_spec (url : URL) (mimetype : string) (autoplay : bool)
    (this : Cast connection) :
  let run := ReqLoadURL url mimetype autoplay this in
  volume (final run) = volume this /\ app (final run) = app this
  /\ match app this with
     | None =>
         result run = Some (ErrOutOfOrder ["transportId"])
         /\ trace run = [] /\ final run = this
     | Some a =>
         if decide (TransportId a = "")
         then result run = Some (ErrOutOfOrder ["transportId"])
              /\ trace run = [] /\ final run = this
         else
           let bind_media := ConnectMedia (TransportId a) in
           let load := LoadUrl (TransportId a) (URL_String url) mimetype autoplay in
           let '(_, data1, err1, x1) := channel_encode bind_media (conn this) in
           match err1 with
           | Some e =>
               result run = Some e /\ trace run = [EvEncode bind_media]
               /\ conn (final run) = x1
           | None =>
               let '(sent1, x2) := connection_send data1 x1 in
               match sent1 with
               | Some e =>
                   result run = Some e
                   /\ trace run = [EvEncode bind_media; EvSend data1]
                   /\ conn (final run) = x2
               | None =>
                   let '(_, data2, err2, x3) := channel_encode load x2 in
                   match err2 with
                   | Some e =>
                       result run = Some e
                       /\ trace run = [EvEncode bind_media; EvSend data1; EvEncode load]
                       /\ conn (final run) = x3
                   | None =>
                       let '(sent2, x4) := connection_send data2 x3 in
                       result run = sent2
                       /\ trace run = [EvEncode bind_media; EvSend data1;
                                       EvEncode load; EvSend data2]
                       /\ conn (final run) = x4
                   end
               end
           end
     end.
Proof.
  intros run. subst run.
  unfold ReqLoadURL, bind, get_this, channel, send, ret, result, final, trace.
  destruct (app this) as [a|] eqn:Ha; simpl; rewrite ?Ha; [|repeat split].
  destruct (String.eqb_spec (TransportId a) "") as [Ht|Ht];
    destruct (decide (TransportId a = "")) as [Hd|Hd]; try contradiction;
    [simpl; rewrite ?Ha; repeat split|].
  destruct (channel_encode (ConnectMedia (TransportId a)) (conn this))
    as [[[n1 data1] [e1|]] x1]; simpl.
  { rewrite ?Ha. repeat split. }
  destruct (connection_send data1 x1) as [[e1'|] x2]; simpl.
  { rewrite ?Ha. repeat split. }
  destruct (channel_encode _ x2) as [[[n2 data2] [e2|]] x3]; simpl.
  { rewrite ?Ha. repeat split. }
  destruct (connection_send data2 x3) as [[e2'|] x4]; simpl;
    rewrite ?Ha; repeat split.
Qed.

(** ** Status updates *)

(** C5, as the device has it. With both caches known [UpdateStatus]
    returns success, calls nothing and leaves the device as it is. With a
    cache unknown it encodes one [GetStatus] request; when the encoder
    returns an error, that error is the result and nothing is sent;
    otherwise the payload is handed to [connection.send] once and the
    result is what [connection.send] returns. In every case the cached
    volume and app are those the call found. *)
Theorem UpdateStatus_spec (this : Cast connection) :
  let run := UpdateStatus this in
  volume (final run) = volume this /\ app (final run) = app this
  /\ match volume this, app this with
     | Some _, Some _ => run = (None, this, [])
     | _, _ =>
         let '(_, data, err, x1) := channel_encode GetStatus (conn this) in
         match err with
         | Some e =>
             result run = Some e /\ trace run = [EvEncode GetStatus]
             /\ sends (trace run) = 0%nat /\ conn (final run) = x1
         | None =>
             let '(sent, x2) := connection_send data x1 in
             result run = sent /\ trace run = [EvEncode GetStatus; EvSend data]
             /\ sends (trace run) = 1%nat /\ conn (final run) = x2
         end
     end.
Proof.
  intros run. subst run. unfold UpdateStatus, bind, get_this, channel, send, ret.
  unfold result, final, trace. simpl.
  destruct (volume this) as [v|] eqn:Hv, (app this) as [a|] eqn:Ha; simpl;
    try (rewrite Hv, Ha; repeat split; fail);
    (destruct (channel_encode GetStatus (conn this)) as [[[n data] [e|]] x1]; simpl;
     [rewrite ?Hv, ?Ha; repeat split|];
     destruct (connection_send data x1) as [[e'|] x2]; simpl;
     rewrite ?Hv, ?Ha; repeat split).
Qed.

(** C4, as the device has it. Nothing in the device records a request in
    flight: on a device with both caches unknown, a first [UpdateStatus]
    sends one status request and leaves the caches unknown, and a second
    call right after it sends one more, provided the channel encodes
    both. *)
Theorem UpdateStatus_twice (this : Cast connection) :
  volume this = None -> app this = None ->
  let first := UpdateStatus this in
  let second := UpdateStatus (final first) in
  encode_err GetStatus (conn this) = None ->
  encode_err GetStatus (conn (final first)) = None ->
  sends (trace first) = 1%nat /\ sends (trace second) = 1%nat
  /\ encodes (trace second) = [GetStatus]
  /\ volume (final first) = None /\ app (final first) = None.
Proof.
  intros Hv Ha first second H1 H2. subst second first.
  assert (Hfirst : UpdateStatus this = request GetStatus this)
    by (rewrite UpdateStatus_run, Hv; reflexivity).
  destruct (request_final GetStatus this) as [x Hx].
  rewrite Hfirst in *. rewrite Hx in *.
  assert (Hsecond : UpdateStatus (with_conn this x) = request GetStatus (with_conn this x))
    by (rewrite UpdateStatus_run; simpl; rewrite Hv; reflexivity).
  rewrite Hsecond.
  destruct (request_trace GetStatus this) as [_ Hs1].
  destruct (request_trace GetStatus (with_conn this x)) as [He2 Hs2].
  rewrite H1 in Hs1. rewrite H2 in Hs2. simpl. auto.
Qed.

(** ** Merging received state *)

(** C6. Where [Equals] is the comparison by value of the specification,
    [SetVolume] and [SetApp] call nothing and leave the connection and
    the other cache alone. With an empty cache, or a cached value that
    differs from the new one, the cache becomes the new value and the flag
    of the aspect is returned; with a cached value equal to the new one
    the device is left as it is and [CAST_FLAG_NONE] is returned. Neither
    returns an error. *)
Theorem SetVolume_SetApp_spec (v : Volume) (a : App) (this : Cast connection) :
  (forall x y, Volume_Equals x y = spec_Volume_Equals x y) ->
  (forall x y, App_Equals x y = spec_App_Equals x y) ->
  (let run := SetVolume v this in
   trace run = [] /\ conn (final run) = conn this /\ app (final run) = app this
   /\ match volume this with
      | Some cur =>
          if spec_Volume_Equals cur v
          then result run = (CAST_FLAG_NONE, None) /\ final run = this
               /\ volume (final run) = Some cur
          else result run = (CAST_FLAG_VOLUME, None) /\ volume (final run) = Some v
      | None => result run = (CAST_FLAG_VOLUME, None) /\ volume (final run) = Some v
      end)
  /\ (let run := SetApp a this in
      trace run = [] /\ conn (final run) = conn this
      /\ volume (final run) = volume this
      /\ match app this with
         | Some cur =>
             if spec_App_Equals cur a
             then result run = (CAST_FLAG_NONE, None) /\ final run = this
                  /\ app (final run) = Some cur
             else result run = (CAST_FLAG_APP, None) /\ app (final run) = Some a
         | None => result run = (CAST_FLAG_APP, None) /\ app (final run) = Some a
         end).
Proof.
  intros HV HA.
  unfold SetVolume, SetApp, bind, get_this, modify_this, ret, result, final, trace.
  simpl. split.
  - destruct (volume this) as [cur|] eqn:Hc;
      [rewrite (HV cur v); destruct (spec_Volume_Equals cur v)|];
      simpl; rewrite ?Hc; repeat split.
  - destruct (app this) as [cur|] eqn:Hc;
      [rewrite (HA cur a); destruct (spec_App_Equals cur a)|];
      simpl; rewrite ?Hc; repeat split.
Qed.

(** ** Connecting and disconnecting *)

(** C7. [Disconnect] tears the connection down once and then clears both
    caches, whatever the teardown returned. Success of the teardown comes
    back as success; an error comes back inside a multierror: as its only
    member, or, when the teardown error is a multierror itself, with the
    same members. *)
Theorem Disconnect_spec (this : Cast connection) :
  let teardown := connection_Disconnect (conn this) in
  let run := Disconnect this in
  trace run = [EvDisconnect]
  /\ volume (final run) = None /\ app (final run) = None
  /\ conn (final run) = snd teardown
  /\ match fst teardown with
     | None => result run = None
     | Some (ErrMulti es) => result run = Some (ErrMulti es)
     | Some e => result run = Some (ErrMulti [e])
     end.
Proof.
  unfold Disconnect, bind, connection_Disconnect_call, modify_this, ret.
  unfold result, final, trace.
  destruct (connection_Disconnect (conn this)) as [[e|] x]; simpl;
    [destruct e|]; repeat split.
Qed.

(** The multierror [Disconnect] returns holds the teardown error: the
    error itself, or its members when it is a multierror already. *)
Lemma multierror_Append_nil (e : error) :
  multierror_Append None e =
    ErrMulti (match e with ErrMulti es => es | _ => [e] end).
Proof. reflexivity. Qed.

(** C8. Without an address [ConnectWithTimeout] fails with the not-found
    error and never calls the connection. With addresses it calls
    [Connect] once, with the device id and the address made of the first
    IP and the port; on success both caches are cleared, on failure the
    error of [Connect] is returned and the caches are those found. *)
Theorem ConnectWithTimeout_spec (timeout : Z) (errs st : chan) (this : Cast connection) :
  let run := ConnectWithTimeout timeout errs st this in
  match ips this with
  | [] => run = (Some (ErrNotFound ["ConnectWithTimeout"; "No Address"]), this, [])
  | ip0 :: _ =>
      let addr := fmt_Sprintf_addr ip0 (port this) in
      let attempt := connection_Connect (id this) addr timeout errs st (conn this) in
      trace run = [EvConnect (id this) addr timeout errs st]
      /\ result run = fst attempt
      /\ conn (final run) = snd attempt
      /\ match fst attempt with
         | None => volume (final run) = None /\ app (final run) = None
         | Some _ => volume (final run) = volume this /\ app (final run) = app this
         end
  end.
Proof.
  intros run. subst run.
  unfold ConnectWithTimeout, bind, get_this, connection_Connect_call, modify_this, ret, Id.
  simpl. destruct (ips this) as [|ip0 rest]; [reflexivity|]. simpl.
  destruct (connection_Connect _ _ _ _ _ _) as [[e|] x]; simpl; repeat split.
Qed.

(** ** Requests on a connection that is not established *)

Section NotConnected.

(** A connection is established or not, encoding on its channel does not
    change which, and a connection that is not established rejects every
    frame it is asked to send. *)
Variable connected : connection -> bool.
Hypothesis encode_keeps : forall (i : Intent) (x : connection),
  connected (snd (channel_encode i x)) = connected x.
Hypothesis send_rejects : forall (data : bytes) (x : connection),
  connected x = false -> is_Some (send_err data x).

Lemma request_not_connected (i : Intent) (this : Cast connection) :
  connected (conn this) = false -> is_Some (result (request i this)).
Proof.
  intros Hc. rewrite request_result.
  destruct (encode_err i (conn this)) as [e|]; [eauto|].
  apply send_rejects. rewrite encode_keeps. exact Hc.
Qed.

(** C9, as the device has it. The device never looks at the connection
    state; a request fails through its encoder or through [send]. On a
    connection that is not established, launch, volume, mute, load and a
    status update with an unknown cache all fail, with the error of the
    encoder or of [send]; a load without an app or with an empty transport
    id fails with the ordering error; and a status update with both caches
    known returns success without calling anything. *)
Theorem requests_not_connected (this : Cast connection) :
  connected (conn this) = false ->
  (forall appId, is_Some (result (ReqLaunchAppWithId appId this))
                 /\ ReqLaunchAppWithId appId this = request (LaunchAppWithId appId) this)
  /\ (forall level, is_Some (result (ReqVolumeLevel level this)))
  /\ (forall muted, is_Some (result (ReqMuted muted this))
                    /\ ReqMuted muted this = request (SetMutedIntent muted) this)
  /\ (forall url mimetype autoplay,
        is_Some (result (ReqLoadURL url mimetype autoplay this))
        /\ match app this with
           | None => result (ReqLoadURL url mimetype autoplay this)
                     = Some (ErrOutOfOrder ["transportId"])
           | Some a =>
               if decide (TransportId a = "")
               then result (ReqLoadURL url mimetype autoplay this)
                    = Some (ErrOutOfOrder ["transportId"])
               else result (ReqLoadURL url mimetype autoplay this)
                    = result (request (ConnectMedia (TransportId a)) this)
           end)
  /\ match volume this, app this with
     | Some _, Some _ => UpdateStatus this = (None, this, [])
     | _, _ => is_Some (result (UpdateStatus this))
               /\ UpdateStatus this = request GetStatus this
     end.
Proof.
  intros Hc. split; [|split; [|split; [|split]]].
  - intros appId. rewrite ReqLaunchAppWithId_request.
    split; [apply request_not_connected, Hc|reflexivity].
  - intros level. rewrite ReqVolumeLevel_request. apply request_not_connected, Hc.
  - intros muted. rewrite ReqMuted_request.
    split; [apply request_not_connected, Hc|reflexivity].
  - intros url mimetype autoplay.
    rewrite ReqLoadURL_run.
    destruct (app this) as [a|]; [|split; [eexists|]; reflexivity].
    destruct (String.eqb_spec (TransportId a) "") as [Ht|Ht];
      destruct (decide (TransportId a = "")) as [Hd|Hd]; try contradiction;
      [split; [eexists|]; reflexivity|]. simpl.
    pose proof (request_not_connected (ConnectMedia (TransportId a)) this Hc) as [e He].
    rewrite He. split; [eexists; exact He|exact He].
  - rewrite UpdateStatus_run.
    destruct (volume this), (app this); simpl;
      try reflexivity; (split; [apply request_not_connected, Hc|reflexivity]).
Qed.

End NotConnected.

(** ** Addresses over the life of a device *)

(** No method changes the addresses or the port of a device. *)
Lemma exec_ips (o : Op) (this : Cast connection) :
  ips (exec o this) = ips this /\ port (exec o this) = port this.
Proof.
  destruct o as [timeout errs st| | |v|a|m|appId|level|muted|url mimetype autoplay];
    unfold exec.
  - unfold ConnectWithTimeout, bind, get_this, connection_Connect_call,
      modify_this, ret. simpl.
    destruct (ips this) as [|ip0 rest] eqn:Hips; simpl; [auto|].
    destruct (connection_Connect _ _ _ _ _ _) as [[e|] x]; simpl; auto.
  - rewrite Disconnect_run. split; reflexivity.
  - rewrite UpdateStatus_run.
    destruct (isnil (volume this) || isnil (app this)); [|split; reflexivity].
    destruct (request_final GetStatus this) as [x ->]. split; reflexivity.
  - unfold SetVolume, bind, get_this, modify_this, ret. simpl.
    destruct (match volume this with Some cur => _ | None => _ end); split; reflexivity.
  - unfold SetApp, bind, get_this, modify_this, ret. simpl.
    destruct (match app this with Some cur => _ | None => _ end); split; reflexivity.
  - split; reflexivity.
  - rewrite ReqLaunchAppWithId_request.
    destruct (request_final (LaunchAppWithId appId) this) as [x ->]. split; reflexivity.
  - rewrite ReqVolumeLevel_request.
    destruct (request_final (SetVolumeIntent
      (if f32_lt level f32_zero then mkVolume f32_zero true
       else if f32_gt level f32_one then mkVolume f32_one false
       else if f32_eq level f32_zero then mkVolume f32_zero true
       else mkVolume level false)) this) as [x ->].
    split; reflexivity.
  - rewrite ReqMuted_request.
    destruct (request_final (SetMutedIntent muted) this) as [x ->]. split; reflexivity.
  - destruct (ReqLoadURL_final url mimetype autoplay this) as [x ->].
    split; reflexivity.
Qed.

Lemma exec_all_ips (ops : list Op) (this : Cast connection) :
  ips (exec_all ops this) = ips this /\ port (exec_all ops this) = port this.
Proof.
  revert this. induction ops as [|o ops IH]; intros this; [split; reflexivity|].
  unfold exec_all in *. simpl.
  destruct (IH (exec o this)) as [-> ->]. apply exec_ips.
Qed.

(** C10. A device built from a record keeps the addresses of the record,
    at least one, through every sequence of its methods. So
    [ConnectWithTimeout] never takes its no-address branch on it: it
    calls [Connect] once, on the first address, and returns what [Connect]
    returns. *)
Theorem ConnectWithTimeout_has_address (r : ServiceRecord) (new : Cast connection)
    (ops : list Op) (timeout : Z) (errs st : chan) :
  NewCastFromRecord r = Some new ->
  let this := exec_all ops new in
  let run := ConnectWithTimeout timeout errs st this in
  ips this = Addrs r
  /\ exists ip0 rest,
       ips this = ip0 :: rest
       /\ trace run =
            [EvConnect (id this) (fmt_Sprintf_addr ip0 (Port r)) timeout errs st]
       /\ result run =
            fst (connection_Connect (id this) (fmt_Sprintf_addr ip0 (Port r))
                                    timeout errs st (conn this)).
Proof.
  intros Hnew this run.
  destruct (NewCastFromRecord_inv r new Hnew)
    as (_ & Haddrs & _ & _ & _ & Hport & Hips & _).
  destruct (exec_all_ips ops new) as [Hi Hp]. fold this in Hi, Hp.
  rewrite Hips in Hi. rewrite Hport in Hp. split; [exact Hi|].
  subst run. rewrite ConnectWithTimeout_run, Hi, Hp.
  destruct (Addrs r) as [|ip0 rest]; [contradiction|].
  exists ip0, rest. repeat split.
Qed.

End DeviceProperties.

(** ** The device against the receiver *)

(** The [float32] constants are binary32 values. *)
Example f32_constants_valid :
  Forall (fun x => valid_binary 24 128 x = true)
         [f32_zero; f32_one; f32_minus_0_3; f32_1_7; S754_nan].
Proof. repeat constructor. Qed.

(** The scenario of the specification: the record with id ["abc123"] and
    an empty friendly name gives a device named ["abc123"], and connecting
    it dials its one address. *)
Example abc123_scenario :
  NewCastFromRecord abc123_record = Some abc123
  /\ Name abc123 = "abc123"
  /\ ConnectWithTimeout 2000000000 1%nat 2%nat abc123 =
       (None, abc123_connected,
        [EvConnect "abc123" "10.0.0.5:8009" 2000000000 1%nat 2%nat]).
Proof. vm_compute. repeat split. Qed.

(** C4, counterexample. On the connected device with both caches unknown
    the first [UpdateStatus] sends one frame, and the second call, made on
    the device as the first left it, sends one frame too, not none. *)
Lemma UpdateStatus_twice_counterexample :
  let first := UpdateStatus abc123_connected in
  let second := UpdateStatus (final first) in
  is_connected (conn abc123_connected) = true
  /\ volume abc123_connected = None /\ app abc123_connected = None
  /\ sends (trace first) = 1%nat
  /\ ~ (sends (trace second) = 0%nat).
Proof. vm_compute. repeat split. discriminate. Qed.

Lemma UpdateStatus_twice_witness :
  let first := UpdateStatus abc123_connected in
  let second := UpdateStatus (final first) in
  (volume abc123_connected = None /\ app abc123_connected = None
   /\ encode_err GetStatus (conn abc123_connected) = None
   /\ encode_err GetStatus (conn (final first)) = None)
  /\ sends (trace first) = 1%nat /\ sends (trace second) = 1%nat
  /\ encodes (trace second) = [GetStatus]
  /\ volume (final first) = None /\ app (final first) = None.
Proof.
  split; [repeat split|].
  apply (UpdateStatus_twice abc123_connected); reflexivity.
Defined.

(** C5, counterexample. On the connected device with both caches
    unknown, over a channel whose encoder fails, [UpdateStatus] returns
    the encoder's error and sends nothing: no request goes out. *)
Lemma UpdateStatus_spec_counterexample :
  let run := @UpdateStatus spec_connection refusing_channel abc123_connected in
  is_connected (conn abc123_connected) = true
  /\ volume abc123_connected = None /\ app abc123_connected = None
  /\ result run = Some encode_error
  /\ trace run = [EvEncode GetStatus]
  /\ ~ (sends (trace run) = 1%nat).
Proof. vm_compute. repeat split. discriminate. Qed.

Lemma SetVolume_SetApp_spec_witness :
  (forall x y, Volume_Equals x y = spec_Volume_Equals x y)
  /\ (forall x y, App_Equals x y = spec_App_Equals x y)
  /\ result (SetVolume (mkVolume f32_one false) abc123_dropped) = (CAST_FLAG_VOLUME, None)
  /\ volume (final (SetVolume (mkVolume f32_one false) abc123_dropped))
     = Some (mkVolume f32_one false)
  /\ result (SetApp backdrop abc123_dropped) = (CAST_FLAG_NONE, None)
  /\ final (SetApp backdrop abc123_dropped) = abc123_dropped.
Proof.
  assert (HV : forall x y, Volume_Equals x y = spec_Volume_Equals x y)
    by (intros x y; reflexivity).
  assert (HA : forall x y, App_Equals x y = spec_App_Equals x y)
    by (intros x y; reflexivity).
  split; [exact HV|]. split; [exact HA|].
  destruct (SetVolume_SetApp_spec (mkVolume f32_one false) backdrop abc123_dropped HV HA)
    as [(_ & _ & _ & Hvol) (_ & _ & _ & Happ)].
  simpl in Hvol, Happ.
  destruct Hvol as [Hr Hv]. destruct Happ as (Hr' & Hf & _).
  repeat split; assumption.
Defined.

(** C9, counterexample. A device that never connected can still be handed
    a volume and an app; its connection is not established and both its
    caches are known, and [UpdateStatus] returns success there: no error,
    and nothing asked of the connection. *)
Lemma requests_not_connected_counterexample :
  NewCastFromRecord abc123_record = Some abc123
  /\ exec_all [OpSetVolume half_volume; OpSetApp backdrop] abc123 = abc123_dropped
  /\ state (conn abc123_dropped) = Disconnected
  /\ UpdateStatus abc123_dropped = (None, abc123_dropped, [])
  /\ ~ (exists e, result (UpdateStatus abc123_dropped) = Some e
                  /\ is_out_of_order e = true).
Proof.
  split; [vm_compute; reflexivity|]. repeat split.
  intros (e & He & _). discriminate He.
Qed.

(** With the connection of the specification, whose [send] fails with a
    transport error while not established, a launch request on the device
    that never connected returns that error. *)
Example ReqLaunchAppWithId_never_connected :
  state (conn abc123) = Disconnected
  /\ result (ReqLaunchAppWithId "CC1AD845" abc123) = Some transport_error
  /\ is_out_of_order transport_error = false.
Proof. vm_compute. repeat split. Qed.

Lemma requests_not_connected_witness :
  is_connected (conn abc123) = false
  /\ is_Some (result (ReqLaunchAppWithId "CC1AD845" abc123))
  /\ is_Some (result (ReqVolumeLevel f32_1_7 abc123))
  /\ is_Some (result (UpdateStatus abc123)).
Proof.
  assert (Hkeep : forall (i : Intent) (x : spec_connection),
             is_connected (snd (channel_encode i x)) = is_connected x)
    by (intros i x; reflexivity).
  assert (Hrej : forall (data : bytes) (x : spec_connection),
             is_connected x = false -> is_Some (send_err data x)).
  { intros data x Hx. unfold send_err. simpl. unfold spec_send.
    rewrite Hx. simpl. eexists. reflexivity. }
  destruct (requests_not_connected is_connected Hkeep Hrej abc123 eq_refl)
    as (Hlaunch & Hvol & _ & _ & Hstatus).
  split; [reflexivity|]. split; [apply Hlaunch|]. split; [apply Hvol|].
  apply Hstatus.
Defined.

Lemma ConnectWithTimeout_has_address_witness :
  NewCastFromRecord abc123_record = Some abc123
  /\ let this := exec_all [OpDisconnect; OpSetVolume half_volume;
                           OpConnectWithTimeout 2000000000 1%nat 2%nat;
                           OpUpdateStatus] abc123 in
     ips this = Addrs abc123_record
     /\ result (ConnectWithTimeout 2000000000 1%nat 2%nat this)
        = Some (ErrOutOfOrder ["Connect"]).
Proof.
  assert (Hnew : NewCastFromRecord abc123_record = Some abc123)
    by (vm_compute; reflexivity).
  split; [exact Hnew|].
  destruct (ConnectWithTimeout_has_address abc123_record abc123
              [OpDisconnect; OpSetVolume half_volume;
               OpConnectWithTimeout 2000000000 1%nat 2%nat; OpUpdateStatus]
              2000000000 1%nat 2%nat Hnew)
    as (Hips & ip0 & rest & _ & _ & Hres).
  split; [exact Hips|vm_compute; reflexivity].
Defined.

(** * Further properties of the device *)

(** ** Splitting TXT entries *)

(** An entry splits exactly when it holds an ["="]. *)
Lemma cut_eq_None_iff (r : string) :
  cut_eq r = None <-> ~ In "="%char (chars r).
Proof.
  unfold chars. induction r as [|c r IH]; simpl.
  - split; [intros _ []|reflexivity].
  - destruct (Ascii.eqb_spec c "=") as [->|Hc].
    + split; [discriminate|]. intros H; exfalso; apply H; left; reflexivity.
    + destruct (cut_eq r) as [[k v]|].
      * split; [discriminate|]. intros H. exfalso.
        assert (Hn : Some (k, v) = None) by (apply IH; intros Hin; apply H; right; exact Hin).
        discriminate Hn.
      * split; [|reflexivity]. intros _ [Heq|Hin]; [exact (Hc Heq)|].
        apply (proj1 IH eq_refl), Hin.
Qed.

(** The split is at the first ["="]: [r] splits into [k] and [v] exactly
    when [r] is [k], ["="], [v] and [k] holds no ["="]. The value may hold
    more of them. *)
Theorem cut_eq_Some_iff (r k v : string) :
  cut_eq r = Some (k, v)
  <-> r = (k ++ "=" ++ v)%string /\ ~ In "="%char (chars k).
Proof.
  rewrite <- cut_eq_None_iff. split.
  - apply cut_eq_Some.
  - intros [-> Hk]. apply cut_eq_join, Hk.
Qed.

(** [SplitN_eq2] returns one or two parts; joined with ["="] they give the
    entry back, and the first part, the key of the entry, holds no ["="]. *)
Theorem SplitN_eq2_round_trip (r : string) :
  String.concat "=" (SplitN_eq2 r) = r
  /\ (SplitN_eq2 r = [txt_key r] \/ SplitN_eq2 r = [txt_key r; txt_value r])
  /\ ~ In "="%char (chars (txt_key r)).
Proof.
  unfold SplitN_eq2, txt_key, txt_value.
  destruct (cut_eq r) as [[k v]|] eqn:E.
  - apply cut_eq_Some_iff in E as [-> Hk]. simpl. auto.
  - apply cut_eq_None_iff in E. simpl. auto.
Qed.

(** ** The TXT map *)

(** A key is bound to [v] exactly when the last entry of that key has the
    value [v]. *)
Theorem txtToMap_lookup_Some_iff (txt : list string) (k v : string) :
  txtToMap txt !! k = Some v
  <-> exists before r later,
        txt = before ++ r :: later
        /\ txt_key r = k /\ txt_value r = v
        /\ Forall (fun r' => txt_key r' <> k) later.
Proof.
  split.
  - induction txt as [|r txt IH] using rev_ind.
    + unfold txtToMap. simpl. rewrite lookup_empty. discriminate.
    + rewrite txtToMap_snoc. destruct (decide (txt_key r = k)) as [Hk|Hk].
      * rewrite Hk, lookup_insert_eq. intros [= <-].
        exists txt, r, []. auto.
      * rewrite lookup_insert_ne by exact Hk. intros Hv.
        destruct (IH Hv) as (before & r0 & later & -> & Hk0 & Hv0 & Hl).
        exists before, r0, (later ++ [r]). rewrite <- app_assoc. simpl.
        repeat split; auto. apply Forall_app. split; [exact Hl|].
        constructor; [exact Hk|constructor].
  - intros (before & r & later & -> & <- & <- & Hl).
    apply txtToMap_lookup_last, Hl.
Qed.

(** A key is unbound exactly when no entry has it. *)
Theorem txtToMap_lookup_None_iff (txt : list string) (k : string) :
  txtToMap txt !! k = None <-> Forall (fun r => txt_key r <> k) txt.
Proof.
  split; [|apply txtToMap_lookup_None].
  induction txt as [|r txt IH] using rev_ind; [constructor|].
  rewrite txtToMap_snoc. destruct (decide (txt_key r = k)) as [Hk|Hk].
  - rewrite Hk, lookup_insert_eq. discriminate.
  - rewrite lookup_insert_ne by exact Hk. intros Hn.
    apply Forall_app. split; [apply IH, Hn|]. constructor; [exact Hk|constructor].
Qed.

(** An entry does not matter to the other keys, wherever it stands. *)
Lemma txtToMap_lookup_drop (before later : list string) (e k : string) :
  txt_key e <> k ->
  txtToMap (before ++ e :: later) !! k = txtToMap (before ++ later) !! k.
Proof.
  intros Hk. induction later as [|r later IH] using rev_ind.
  - rewrite app_nil_r, txtToMap_snoc, lookup_insert_ne by exact Hk. reflexivity.
  - rewrite app_comm_cons, !app_assoc, !txtToMap_snoc.
    destruct (decide (txt_key r = k)) as [Hr|Hr].
    + rewrite Hr, !lookup_insert_eq. reflexivity.
    + rewrite !lookup_insert_ne by exact Hr. exact IH.
Qed.

(** Entries of different keys can be swapped: only the order among the
    entries of one key matters. *)
Theorem txtToMap_swap (before later : list string) (r1 r2 : string) :
  txt_key r1 <> txt_key r2 ->
  txtToMap (before ++ r1 :: r2 :: later) = txtToMap (before ++ r2 :: r1 :: later).
Proof.
  intros Hne.
  assert (H2 : txtToMap ((before ++ [r1]) ++ [r2]) = txtToMap ((before ++ [r2]) ++ [r1])).
  { rewrite !txtToMap_snoc. apply insert_insert_ne. congruence. }
  replace (before ++ r1 :: r2 :: later) with (((before ++ [r1]) ++ [r2]) ++ later)
    by (rewrite <- !app_assoc; reflexivity).
  replace (before ++ r2 :: r1 :: later) with (((before ++ [r2]) ++ [r1]) ++ later)
    by (rewrite <- !app_assoc; reflexivity).
  unfold txtToMap in *.
  rewrite (foldl_app _ ((before ++ [r1]) ++ [r2]) later).
  rewrite (foldl_app _ ((before ++ [r2]) ++ [r1]) later).
  rewrite H2. reflexivity.
Qed.

(** An entry [k=v] binds [k] to [v], and an entry [k] without ["="]
    binds [k] to the empty string, unless a later entry has the key. The
    value is everything after the first ["="]. *)
Theorem txtToMap_entry (before later : list string) (k v : string) :
  ~ In "="%char (chars k) ->
  Forall (fun r => txt_key r <> k) later ->
  txtToMap (before ++ (k ++ "=" ++ v)%string :: later) !! k = Some v
  /\ txtToMap (before ++ k :: later) !! k = Some "".
Proof.
  intros Hk Hl. apply cut_eq_None_iff in Hk.
  assert (H1 : txt_key (k ++ "=" ++ v)%string = k /\ txt_value (k ++ "=" ++ v)%string = v).
  { unfold txt_key, txt_value. rewrite (cut_eq_join k v Hk). split; reflexivity. }
  assert (H2 : txt_key k = k /\ txt_value k = "").
  { unfold txt_key, txt_value. rewrite Hk. split; reflexivity. }
  destruct H1 as [K1 V1], H2 as [K2 V2]. split.
  - pose proof (txtToMap_lookup_last before later (k ++ "=" ++ v)%string) as H.
    rewrite K1, V1 in H. apply H, Hl.
  - pose proof (txtToMap_lookup_last before later k) as H.
    rewrite K2, V2 in H. apply H, Hl.
Qed.

Section FurtherProperties.

Context {connection : Type} `{!Collaborators connection}.

(** ** Construction, continued *)

Lemma NewCastFromRecord_txt (p : Z) (a : list IP) (txt txt' : list string) :
  (forall k, In k ["id"; "fn"; "md"; "rs"; "st"] ->
             txtToMap txt !! k = txtToMap txt' !! k) ->
  NewCastFromRecord (mkServiceRecord p a txt)
  = NewCastFromRecord (mkServiceRecord p a txt').
Proof.
  intros H. unfold NewCastFromRecord. simpl.
  rewrite (H "id"), (H "fn"), (H "md"), (H "rs"), (H "st") by (simpl; tauto).
  reflexivity.
Qed.

(** The constructor reads five keys of the TXT list; an entry with any
    other key, wherever it stands in the list, changes nothing. *)
Theorem NewCastFromRecord_ignores (p : Z) (a : list IP)
    (before later : list string) (e : string) :
  ~ In (txt_key e) ["id"; "fn"; "md"; "rs"; "st"] ->
  NewCastFromRecord (mkServiceRecord p a (before ++ e :: later))
  = NewCastFromRecord (mkServiceRecord p a (before ++ later)).
Proof.
  intros He. apply NewCastFromRecord_txt. intros k Hk.
  apply txtToMap_lookup_drop. intros Heq. apply He. rewrite Heq. exact Hk.
Qed.

(** With a port and an address, the last entry of key ["id"] names the
    device: when its value is not empty the device is built and has it
    as id, whatever ids earlier entries gave. *)
Theorem NewCastFromRecord_last_id (p : Z) (a : list IP)
    (before later : list string) (r : string) :
  p <> 0 -> a <> [] ->
  txt_key r = "id" -> txt_value r <> "" ->
  Forall (fun r' => txt_key r' <> "id") later ->
  exists this : Cast connection,
    NewCastFromRecord (mkServiceRecord p a (before ++ r :: later)) = Some this
    /\ Id this = txt_value r.
Proof.
  intros Hp Ha Hk Hv Hl.
  assert (Hid : txtToMap (before ++ r :: later) !! "id" = Some (txt_value r)).
  { rewrite <- Hk in Hl |- *. apply txtToMap_lookup_last, Hl. }
  destruct (NewCastFromRecord_valid (mkServiceRecord p a (before ++ r :: later)))
    as [this Hthis].
  { unfold valid_record. simpl. eauto. }
  exists this. split; [exact Hthis|].
  destruct (NewCastFromRecord_inv _ _ Hthis) as (_ & _ & Hid' & _).
  simpl in Hid'. unfold Id. congruence.
Qed.

(** The state flag of a new device is the TXT ["st"] value read as an
    unsigned number, and 0 when the key is absent or its value does not
    parse; its service is the TXT status text, no app being cached. *)
Theorem NewCastFromRecord_State (r : ServiceRecord) :
  match NewCastFromRecord r with
  | Some this =>
      State this =
        match txtToMap (Txt r) !! "st" with
        | Some s =>
            match strconv_ParseUint s 0 64 with
            | Some n => n mod 2 ^ uint_size
            | None => 0
            end
        | None => 0
        end
      /\ Service this = default "" (txtToMap (Txt r) !! "rs")
  | None => True
  end.
Proof.
  unfold NewCastFromRecord.
  destruct (Port r =? 0); [exact I|].
  destruct (length (Addrs r) =? 0)%nat; [exact I|].
  destruct (txtToMap (Txt r) !! "id") as [i|]; [|exact I].
  destruct (negb (String.eqb i "")); [|exact I].
  destruct (txtToMap (Txt r) !! "fn") as [f|];
    [destruct (negb (String.eqb f ""))|];
    destruct (txtToMap (Txt r) !! "md") as [m|];
    destruct (txtToMap (Txt r) !! "rs") as [s|];
    (destruct (txtToMap (Txt r) !! "st") as [t|];
     [destruct (strconv_ParseUint t 0 64)|]);
    split; reflexivity.
Qed.

(** ** What an operation can change *)

(** An operation changes at most the connection and the two caches; a
    request leaves the caches alone, and a merge leaves the connection
    alone. *)
Lemma exec_shape (o : Op) (this : Cast connection) :
  exists x v a,
    exec o this =
      mkCast x (id this) (fn this) (md this) (rs this) (st this) (ips this)
             (port this) v a
    /\ (is_lifecycle o = false -> is_merge o = false ->
        v = volume this /\ a = app this)
    /\ (is_merge o = true -> x = conn this).
Proof.
  assert (Hreq : forall i, exists x v a,
             final (request i this) =
               mkCast x (id this) (fn this) (md this) (rs this) (st this)
                      (ips this) (port this) v a
             /\ (false = false -> false = false -> v = volume this /\ a = app this)
             /\ (false = true -> x = conn this)).
  { intros i. destruct (request_final i this) as [x ->].
    exists x, (volume this), (app this). repeat split; discriminate. }
  destruct o as [timeout errs st| | |v|a|m|appId|level|muted|url mimetype autoplay];
    unfold exec.
  - unfold ConnectWithTimeout, bind, get_this, connection_Connect_call,
      modify_this, ret. simpl.
    destruct this as [x i f m r s ip p v a]. simpl.
    destruct ip as [|ip0 rest]; simpl;
      [|destruct (connection_Connect _ _ _ _ _ _) as [[e|] x']; simpl];
      do 3 eexists; (split; [reflexivity|]); split; discriminate.
  - rewrite Disconnect_run.
    do 3 eexists. split; [reflexivity|]. split; discriminate.
  - rewrite UpdateStatus_run.
    destruct (isnil (volume this) || isnil (app this)); [apply Hreq|].
    destruct this as [x i f m r s ip p v a]. simpl.
    do 3 eexists. split; [reflexivity|]. simpl. split; [auto|discriminate].
  - unfold SetVolume, bind, get_this, modify_this, ret. simpl.
    destruct this as [x i f m r s ip p v0 a]. simpl.
    destruct (match v0 with Some cur => _ | None => _ end); simpl;
      do 3 eexists; (split; [reflexivity|]); split; auto; discriminate.
  - unfold SetApp, bind, get_this, modify_this, ret. simpl.
    destruct this as [x i f m r s ip p v a0]. simpl.
    destruct (match a0 with Some cur => _ | None => _ end); simpl;
      do 3 eexists; (split; [reflexivity|]); split; auto; discriminate.
  - destruct this as [x i f m' r s ip p v a]. simpl.
    do 3 eexists. split; [reflexivity|]. split; auto; discriminate.
  - rewrite ReqLaunchAppWithId_request. apply Hreq.
  - rewrite ReqVolumeLevel_request. apply Hreq.
  - rewrite ReqMuted_request. apply Hreq.
  - destruct (ReqLoadURL_final url mimetype autoplay this) as [x ->].
    exists x, (volume this), (app this). repeat split; discriminate.
Qed.

Lemma exec_all_fields (ops : list Op) (this : Cast connection) :
  id (exec_all ops this) = id this /\ fn (exec_all ops this) = fn this
  /\ md (exec_all ops this) = md this /\ rs (exec_all ops this) = rs this
  /\ st (exec_all ops this) = st this
  /\ ips (exec_all ops this) = ips this /\ port (exec_all ops this) = port this.
Proof.
  revert this. induction ops as [|o ops IH]; intros this; [repeat split|].
  unfold exec_all in *. simpl.
  destruct (IH (exec o this)) as (-> & -> & -> & -> & -> & -> & ->).
  destruct (exec_shape o this) as (x & v & a & -> & _). repeat split.
Qed.

(** The identity of a device, the record it was built from, never
    changes: whatever is done to the device, [Id], [Name], [Model] and
    [State] answer the same, and the addresses, port and status text
    stay. *)
Theorem exec_all_identity (ops : list Op) (this : Cast connection) :
  let this' := exec_all ops this in
  Id this' = Id this /\ Name this' = Name this /\ Model this' = Model this
  /\ State this' = State this /\ rs this' = rs this
  /\ ips this' = ips this /\ port this' = port this.
Proof.
  intros this'. subst this'. unfold Id, Name, Model, State.
  destruct (exec_all_fields ops this) as (-> & -> & -> & -> & -> & -> & ->).
  repeat split.
Qed.

(** A device built by the constructor has an id and a name that are not
    empty and a port that is not zero, and keeps them. *)
Theorem constructed_identity (r : ServiceRecord) (new : Cast connection)
    (ops : list Op) :
  NewCastFromRecord r = Some new ->
  let this := exec_all ops new in
  Id this <> "" /\ Name this <> "" /\ port this <> 0 /\ ips this <> []
  /\ txtToMap (Txt r) !! "id" = Some (Id this).
Proof.
  intros Hnew this. subst this. unfold Id, Name.
  destruct (exec_all_fields ops new) as (-> & -> & _ & _ & _ & -> & ->).
  destruct (NewCastFromRecord_inv r new Hnew)
    as (Hport & Haddrs & Hid & Hidne & Hfn & -> & -> & _).
  repeat split; assumption.
Qed.

(** Requests are fire and forget: a run of status updates and requests
    changes neither cache, whatever the connection answers. The caches
    change through the merge operations, connect and disconnect only. *)
Theorem requests_keep_caches (ops : list Op) (this : Cast connection) :
  Forall (fun o => is_lifecycle o = false /\ is_merge o = false) ops ->
  volume (exec_all ops this) = volume this /\ app (exec_all ops this) = app this
  /\ Service (exec_all ops this) = Service this.
Proof.
  intros Hops.
  assert (Hc : volume (exec_all ops this) = volume this
               /\ app (exec_all ops this) = app this).
  { revert this. induction Hops as [|o ops [Hl Hm] Hops IH]; intros this;
      [split; reflexivity|].
    unfold exec_all in *. simpl.
    destruct (IH (exec o this)) as [-> ->].
    destruct (exec_shape o this) as (x & v & a & -> & Hreq & _).
    destruct (Hreq Hl Hm) as [-> ->]. split; reflexivity. }
  destruct Hc as [Hv Ha]. repeat split; [exact Hv|exact Ha|].
  unfold Service. rewrite Ha.
  destruct (exec_all_fields ops this) as (_ & _ & _ & -> & _). reflexivity.
Qed.

(** The merge operations never touch the connection and ask nothing of
    it. *)
Theorem merges_keep_connection (ops : list Op) (this : Cast connection) :
  Forall (fun o => is_merge o = true) ops ->
  conn (exec_all ops this) = conn this /\ trace_all ops this = [].
Proof.
  revert this. induction ops as [|o ops IH]; intros this Hops; [split; reflexivity|].
  apply Forall_cons in Hops as [Hm Hops].
  unfold exec_all in *. simpl.
  destruct (IH (exec o this) Hops) as [-> ->].
  destruct (exec_shape o this) as (x & v & a & -> & _ & Hx). rewrite (Hx Hm).
  split; [reflexivity|]. rewrite app_nil_r.
  destruct o; try discriminate Hm; simpl.
  - rewrite SetVolume_run.
    destruct (volume this) as [cur|]; [destruct (Volume_Equals cur v0)|]; reflexivity.
  - rewrite SetApp_run.
    destruct (app this) as [cur|]; [destruct (App_Equals cur a0)|]; reflexivity.
  - reflexivity.
Qed.

(** ** The life of the caches *)

Lemma exec_all_app (ops1 ops2 : list Op) (this : Cast connection) :
  exec_all (ops1 ++ ops2) this = exec_all ops2 (exec_all ops1 this).
Proof. unfold exec_all. apply foldl_app. Qed.

Lemma SetVolume_known (v : Volume) (this : Cast connection) :
  isnil (volume (final (SetVolume v this))) = false.
Proof.
  rewrite SetVolume_run.
  destruct (volume this) as [cur|] eqn:Hc; [destruct (Volume_Equals cur v)|];
    unfold final; simpl; rewrite ?Hc; reflexivity.
Qed.

Lemma SetApp_known (a : App) (this : Cast connection) :
  isnil (app (final (SetApp a this))) = false.
Proof.
  rewrite SetApp_run.
  destruct (app this) as [cur|] eqn:Hc; [destruct (App_Equals cur a)|];
    unfold final; simpl; rewrite ?Hc; reflexivity.
Qed.

(** Only connect and disconnect forget a cached value. *)
Lemma exec_known (o : Op) (this : Cast connection) :
  is_lifecycle o = false ->
  (isnil (volume this) = false -> isnil (volume (exec o this)) = false)
  /\ (isnil (app this) = false -> isnil (app (exec o this)) = false).
Proof.
  intros Hl. destruct (is_merge o) eqn:Hm.
  - destruct o; try discriminate Hm; unfold exec.
    + rewrite SetVolume_run.
      destruct (volume this) as [cur|] eqn:Hc; [destruct (Volume_Equals cur v)|];
        unfold final; simpl; rewrite ?Hc; split; auto.
    + rewrite SetApp_run.
      destruct (app this) as [cur|] eqn:Hc; [destruct (App_Equals cur a)|];
        unfold final; simpl; rewrite ?Hc; split; auto.
    + split; auto.
  - destruct (exec_shape o this) as (x & v & a & -> & Hreq & _).
    destruct (Hreq Hl Hm) as [-> ->]. split; auto.
Qed.

Lemma exec_all_known (ops : list Op) (this : Cast connection) :
  Forall (fun o => is_lifecycle o = false) ops ->
  (isnil (volume this) = false -> isnil (volume (exec_all ops this)) = false)
  /\ (isnil (app this) = false -> isnil (app (exec_all ops this)) = false).
Proof.
  intros Hops. revert this. induction Hops as [|o ops Hl Hops IH]; intros this;
    [split; auto|].
  unfold exec_all in *. simpl.
  destruct (IH (exec o this)) as [IHv IHa].
  destruct (exec_known o this Hl) as [Hv Ha]. split; auto.
Qed.

(** Once a volume and an app have been merged, and as long as the device
    is neither reconnected nor disconnected, [UpdateStatus] asks nothing
    of the receiver: it returns success and calls nothing, whatever
    requests and merges happened in between. *)
Theorem UpdateStatus_after_merge (ops : list Op) (v : Volume) (a : App)
    (this : Cast connection) :
  Forall (fun o => is_lifecycle o = false) ops ->
  In (OpSetVolume v) ops -> In (OpSetApp a) ops ->
  UpdateStatus (exec_all ops this) = (None, exec_all ops this, []).
Proof.
  intros Hops Hv Ha.
  assert (Hvol : isnil (volume (exec_all ops this)) = false).
  { apply in_split in Hv as (l1 & l2 & ->).
    apply Forall_app in Hops as [_ Hops]. apply Forall_cons in Hops as [_ Hops].
    change (l1 ++ OpSetVolume v :: l2) with (l1 ++ [OpSetVolume v] ++ l2).
    rewrite !exec_all_app. apply (exec_all_known l2 _ Hops).
    apply (SetVolume_known v (exec_all l1 this)). }
  assert (Happ : isnil (app (exec_all ops this)) = false).
  { apply in_split in Ha as (l1 & l2 & ->).
    apply Forall_app in Hops as [_ Hops]. apply Forall_cons in Hops as [_ Hops].
    change (l1 ++ OpSetApp a :: l2) with (l1 ++ [OpSetApp a] ++ l2).
    rewrite !exec_all_app. apply (exec_all_known l2 _ Hops).
    apply (SetApp_known a (exec_all l1 this)). }
  rewrite UpdateStatus_run, Hvol, Happ. reflexivity.
Qed.

(** After [Disconnect] nothing is known any more: a load fails with the
    ordering error before anything is encoded, a status update goes out
    to the receiver again, and [Service] answers the status text of the
    record. *)
Theorem Disconnect_then (this : Cast connection) (url : URL) (mimetype : string)
    (autoplay : bool) :
  let d := final (Disconnect this) in
  ReqLoadURL url mimetype autoplay d = (Some (ErrOutOfOrder ["transportId"]), d, [])
  /\ UpdateStatus d = request GetStatus d
  /\ encodes (trace (UpdateStatus d)) = [GetStatus]
  /\ Service d = rs this.
Proof.
  intros d. subst d. rewrite Disconnect_run. unfold final. simpl.
  rewrite ReqLoadURL_run, UpdateStatus_run. simpl.
  repeat split. apply request_trace.
Qed.

(** The same holds after a connect that succeeded, until the receiver's
    state has been merged. *)
Theorem ConnectWithTimeout_then (timeout : Z) (errs st : chan) (this : Cast connection)
    (url : URL) (mimetype : string) (autoplay : bool) :
  result (ConnectWithTimeout timeout errs st this) = None ->
  let c := final (ConnectWithTimeout timeout errs st this) in
  ReqLoadURL url mimetype autoplay c = (Some (ErrOutOfOrder ["transportId"]), c, [])
  /\ UpdateStatus c = request GetStatus c
  /\ encodes (trace (UpdateStatus c)) = [GetStatus]
  /\ Service c = rs this.
Proof.
  rewrite ConnectWithTimeout_run.
  destruct (ips this) as [|ip0 rest]; [discriminate|]. unfold result, final. simpl.
  intros Hres. rewrite Hres.
  rewrite ReqLoadURL_run, UpdateStatus_run. simpl.
  repeat split. apply request_trace.
Qed.

(** Merging a volume and merging an app do not interfere: in either
    order they report the same flags and leave the same device. *)
Theorem SetVolume_SetApp_commute (v : Volume) (a : App) (this : Cast connection) :
  final (SetApp a (final (SetVolume v this)))
  = final (SetVolume v (final (SetApp a this)))
  /\ result (SetVolume v (final (SetApp a this))) = result (SetVolume v this)
  /\ result (SetApp a (final (SetVolume v this))) = result (SetApp a this).
Proof.
  rewrite (SetVolume_run v this), (SetApp_run a this).
  destruct (volume this) as [cv|] eqn:Hv, (app this) as [ca|] eqn:Ha;
    try destruct (Volume_Equals cv v) eqn:Ev; try destruct (App_Equals ca a) eqn:Ea;
    unfold final, result; simpl;
    rewrite SetVolume_run, SetApp_run; simpl; rewrite ?Hv, ?Ha, ?Ev, ?Ea;
    repeat split.
Qed.

(** Merging the same value twice reports a change at most once, when
    [Equals] holds of a value and itself. *)
Theorem merge_twice (v : Volume) (a : App) (this : Cast connection) :
  Volume_Equals v v = true -> App_Equals a a = true ->
  SetVolume v (final (SetVolume v this))
  = ((CAST_FLAG_NONE, None), final (SetVolume v this), [])
  /\ SetApp a (final (SetApp a this))
     = ((CAST_FLAG_NONE, None), final (SetApp a this), []).
Proof.
  intros Hv Ha. split.
  - rewrite (SetVolume_run v this).
    destruct (volume this) as [cur|] eqn:Hc; [destruct (Volume_Equals cur v) eqn:He|];
      unfold final; simpl; rewrite SetVolume_run; simpl;
      rewrite ?Hc, ?He, ?Hv; reflexivity.
  - rewrite (SetApp_run a this).
    destruct (app this) as [cur|] eqn:Hc; [destruct (App_Equals cur a) eqn:He|];
      unfold final; simpl; rewrite SetApp_run; simpl;
      rewrite ?Hc, ?He, ?Ha; reflexivity.
Qed.

(** ** What a run asks of the connection *)

Lemma sends_app (tr1 tr2 : list Event) : sends (tr1 ++ tr2) = (sends tr1 + sends tr2)%nat.
Proof. unfold sends. rewrite List.filter_app. apply length_app. Qed.

Lemma connects_app (tr1 tr2 : list Event) :
  connects (tr1 ++ tr2) = (connects tr1 + connects tr2)%nat.
Proof. unfold connects. rewrite List.filter_app. apply length_app. Qed.

Lemma disconnects_app (tr1 tr2 : list Event) :
  disconnects (tr1 ++ tr2) = (disconnects tr1 + disconnects tr2)%nat.
Proof. unfold disconnects. rewrite List.filter_app. apply length_app. Qed.

Lemma encodes_app (tr1 tr2 : list Event) :
  encodes (tr1 ++ tr2) = encodes tr1 ++ encodes tr2.
Proof. unfold encodes. apply omap_app. Qed.

Lemma request_counts (i : Intent) (this : Cast connection) :
  let tr := trace (request i this) in
  (sends tr <= 1)%nat /\ length (encodes tr) = 1%nat
  /\ connects tr = 0%nat /\ disconnects tr = 0%nat.
Proof.
  rewrite request_run.
  destruct (channel_encode i (conn this)) as [[[n data] [e|]] x]; simpl;
    [repeat split; unfold sends; simpl; lia|].
  destruct (connection_send data x) as [err' x']; simpl.
  repeat split; unfold sends; simpl; lia.
Qed.

Ltac count_trace := unfold sends, connects, disconnects, encodes; simpl; lia.

Lemma exec_trace_counts (o : Op) (this : Cast connection) :
  let tr := exec_trace o this in
  (sends tr <= length (encodes tr))%nat
  /\ (length (encodes tr) <= if is_lifecycle o || is_merge o then 0 else 2)%nat
  /\ (connects tr <= if is_connect_op o then 1 else 0)%nat
  /\ disconnects tr = (if is_disconnect_op o then 1 else 0)%nat.
Proof.
  assert (Hreq : forall i,
             let tr := trace (request i this) in
             (sends tr <= length (encodes tr))%nat
             /\ (length (encodes tr) <= 2)%nat
             /\ (connects tr <= 0)%nat /\ disconnects tr = 0%nat).
  { intros i. destruct (request_counts i this) as (Hs & He & Hc & Hd).
    simpl in *. rewrite He, Hc, Hd. repeat split; lia. }
  destruct o as [timeout errs st| | |v|a|m|appId|level|muted|url mimetype autoplay];
    unfold exec_trace; simpl.
  - rewrite ConnectWithTimeout_run. destruct (ips this) as [|ip0 rest]; simpl;
      repeat split; count_trace.
  - rewrite Disconnect_run. simpl. repeat split; count_trace.
  - rewrite UpdateStatus_run.
    destruct (isnil (volume this) || isnil (app this)); [apply Hreq|].
    simpl. repeat split; count_trace.
  - rewrite SetVolume_run.
    destruct (volume this) as [cur|]; [destruct (Volume_Equals cur v)|];
      simpl; repeat split; count_trace.
  - rewrite SetApp_run.
    destruct (app this) as [cur|]; [destruct (App_Equals cur a)|];
      simpl; repeat split; count_trace.
  - repeat split; count_trace.
  - rewrite ReqLaunchAppWithId_request. apply Hreq.
  - rewrite ReqVolumeLevel_request. apply Hreq.
  - rewrite ReqMuted_request. apply Hreq.
  - rewrite ReqLoadURL_run.
    destruct (app this) as [a|]; [|simpl; repeat split; count_trace].
    destruct (String.eqb (TransportId a) ""); [simpl; repeat split; count_trace|]. simpl.
    pose proof (request_counts (ConnectMedia (TransportId a)) this) as (Hs1 & He1 & Hc1 & Hd1).
    simpl in Hs1, He1, Hc1, Hd1.
    destruct (result (request (ConnectMedia (TransportId a)) this)) as [e|].
    + rewrite He1, Hc1, Hd1. repeat split; lia.
    + pose proof (request_counts
                    (LoadUrl (TransportId a) (URL_String url) mimetype autoplay)
                    (final (request (ConnectMedia (TransportId a)) this)))
        as (Hs2 & He2 & Hc2 & Hd2).
      simpl in Hs2, He2, Hc2, Hd2. unfold trace at 1 3 5 7 9. simpl.
      fold (trace (request (ConnectMedia (TransportId a)) this)).
      fold (trace (request (LoadUrl (TransportId a) (URL_String url) mimetype autoplay)
                           (final (request (ConnectMedia (TransportId a)) this)))).
      rewrite sends_app, encodes_app, length_app, connects_app, disconnects_app.
      rewrite He1, He2, Hc1, Hc2, Hd1, Hd2. repeat split; lia.
Qed.

(** Over any run of a device: a frame is sent only after an encoding,
    so there are never more frames than encodings, and at most two
    encodings for each request; the connection is dialled by
    [ConnectWithTimeout] only, at most once a call, and no request
    reconnects; and it is torn down once for each [Disconnect], by nothing
    else. *)
Theorem trace_all_discipline (ops : list Op) (this : Cast connection) :
  let tr := trace_all ops this in
  (sends tr <= length (encodes tr))%nat
  /\ (length (encodes tr)
      <= 2 * length (List.filter (fun o => negb (is_lifecycle o || is_merge o)) ops))%nat
  /\ (connects tr <= length (List.filter is_connect_op ops))%nat
  /\ disconnects tr = length (List.filter is_disconnect_op ops).
Proof.
  revert this. induction ops as [|o ops IH]; intros this; simpl;
    [repeat split; count_trace|].
  destruct (IH (exec o this)) as (IHs & IHe & IHc & IHd).
  destruct (exec_trace_counts o this) as (Hs & He & Hc & Hd). simpl in Hs, He, Hc, Hd.
  rewrite sends_app, encodes_app, length_app, connects_app, disconnects_app.
  rewrite IHd, Hd.
  destruct (is_lifecycle o || is_merge o), (is_connect_op o), (is_disconnect_op o);
    simpl in *; repeat split; lia.
Qed.

(** ** The request facade *)

(** Launch and mute are one encoding and one send: the intent is encoded
    once; an encoding error is returned as it is and then nothing is
    sent; otherwise the payload is sent once and the result is what [send]
    returns. *)
Theorem ReqLaunchAppWithId_ReqMuted_errors (appId : string) (muted : bool)
    (this : Cast connection) :
  (let run := ReqLaunchAppWithId appId this in
   let i := LaunchAppWithId appId in
   encodes (trace run) = [i]
   /\ match encode_err i (conn this) with
      | Some e => result run = Some e /\ sends (trace run) = 0%nat
      | None =>
          sends (trace run) = 1%nat
          /\ result run = send_err (snd (fst (fst (channel_encode i (conn this)))))
                                   (snd (channel_encode i (conn this)))
      end)
  /\ (let run := ReqMuted muted this in
      let i := SetMutedIntent muted in
      encodes (trace run) = [i]
      /\ match encode_err i (conn this) with
         | Some e => result run = Some e /\ sends (trace run) = 0%nat
         | None =>
             sends (trace run) = 1%nat
             /\ result run = send_err (snd (fst (fst (channel_encode i (conn this)))))
                                      (snd (channel_encode i (conn this)))
         end).
Proof.
  simpl. rewrite ReqLaunchAppWithId_request, ReqMuted_request.
  split.
  - destruct (request_trace (LaunchAppWithId appId) this) as [He Hs].
    pose proof (request_result (LaunchAppWithId appId) this) as Hr.
    split; [exact He|].
    destruct (encode_err (LaunchAppWithId appId) (conn this)); auto.
  - destruct (request_trace (SetMutedIntent muted) this) as [He Hs].
    pose proof (request_result (SetMutedIntent muted) this) as Hr.
    split; [exact He|].
    destruct (encode_err (SetMutedIntent muted) (conn this)); auto.
Qed.

(** The volume requested is canonical for every level, NaN included: it
    is muted exactly when its level is zero, and requesting its level
    again is the same request. *)
Theorem ReqVolumeLevel_canonical (level : float32) (this : Cast connection) :
  exists v : Volume,
    ReqVolumeLevel level this = request (SetVolumeIntent v) this
    /\ encodes (trace (ReqVolumeLevel level this)) = [SetVolumeIntent v]
    /\ Muted v = f32_eq (Level v) f32_zero
    /\ (Muted v = true -> Level v = f32_zero)
    /\ ReqVolumeLevel (Level v) this = ReqVolumeLevel level this.
Proof.
  rewrite (ReqVolumeLevel_request level).
  assert (Hz : ReqVolumeLevel f32_zero this
               = request (SetVolumeIntent (mkVolume f32_zero true)) this)
    by (rewrite ReqVolumeLevel_request; reflexivity).
  assert (Ho : ReqVolumeLevel f32_one this
               = request (SetVolumeIntent (mkVolume f32_one false)) this)
    by (rewrite ReqVolumeLevel_request; reflexivity).
  destruct (f32_lt level f32_zero) eqn:Hlt.
  { eexists. split; [reflexivity|]. split; [apply request_trace|].
    simpl. repeat split. exact Hz. }
  destruct (f32_gt level f32_one) eqn:Hgt.
  { eexists. split; [reflexivity|]. split; [apply request_trace|].
    simpl. repeat split; [discriminate|exact Ho]. }
  destruct (f32_eq level f32_zero) eqn:Heq.
  { eexists. split; [reflexivity|]. split; [apply request_trace|].
    simpl. repeat split. exact Hz. }
  eexists. split; [reflexivity|]. split; [apply request_trace|].
  simpl. rewrite Heq. repeat split; [discriminate|].
  rewrite ReqVolumeLevel_request, Hlt, Hgt, Heq. reflexivity.
Qed.

End FurtherProperties.

(** ** Further properties, on the receiver *)

Lemma txtToMap_entry_witness :
  txtToMap (["id=old"] ++ ("id" ++ "=" ++ "a=b")%string :: ["fn=TV"]) !! "id" = Some "a=b"
  /\ txtToMap (["id=old"] ++ "id" :: ["fn=TV"]) !! "id" = Some "".
Proof.
  apply (txtToMap_entry ["id=old"] ["fn=TV"] "id" "a=b").
  - simpl. intros [H|[H|[]]]; discriminate H.
  - repeat constructor. vm_compute. discriminate.
Defined.

Lemma txtToMap_swap_witness :
  txtToMap (["x=1"] ++ "id=abc123" :: "fn=TV" :: ["md=Chromecast"])
  = txtToMap (["x=1"] ++ "fn=TV" :: "id=abc123" :: ["md=Chromecast"]).
Proof.
  apply (txtToMap_swap ["x=1"] ["md=Chromecast"] "id=abc123" "fn=TV").
  vm_compute. discriminate.
Defined.

Lemma NewCastFromRecord_ignores_witness :
  NewCastFromRecord (mkServiceRecord 8009 [[Byte.x0a; Byte.x00; Byte.x00; Byte.x05]]
                       (["id=abc123"] ++ "ca=4101" :: ["fn=TV"]))
  = NewCastFromRecord (mkServiceRecord 8009 [[Byte.x0a; Byte.x00; Byte.x00; Byte.x05]]
                         (["id=abc123"] ++ ["fn=TV"])).
Proof.
  apply (NewCastFromRecord_ignores 8009 [[Byte.x0a; Byte.x00; Byte.x00; Byte.x05]]
           ["id=abc123"] ["fn=TV"] "ca=4101").
  vm_compute. intros [H|[H|[H|[H|[H|[]]]]]]; discriminate H.
Defined.

Lemma NewCastFromRecord_last_id_witness :
  exists this : Cast spec_connection,
    NewCastFromRecord (mkServiceRecord 8009 [[Byte.x0a; Byte.x00; Byte.x00; Byte.x05]]
                         (["id=old"] ++ "id=abc123" :: ["fn=TV"])) = Some this
    /\ Id this = txt_value "id=abc123".
Proof.
  apply (NewCastFromRecord_last_id 8009 [[Byte.x0a; Byte.x00; Byte.x00; Byte.x05]]
           ["id=old"] ["fn=TV"] "id=abc123").
  - discriminate.
  - discriminate.
  - reflexivity.
  - vm_compute. discriminate.
  - repeat constructor. vm_compute. discriminate.
Defined.

Lemma constructed_identity_witness :
  let this := exec_all [OpSetVolume half_volume; OpDisconnect; OpReqMuted true] abc123 in
  Id this <> "" /\ Name this <> "" /\ port this <> 0 /\ ips this <> []
  /\ txtToMap (Txt abc123_record) !! "id" = Some (Id this).
Proof.
  apply (constructed_identity abc123_record abc123
           [OpSetVolume half_volume; OpDisconnect; OpReqMuted true]).
  vm_compute. reflexivity.
Defined.

Lemma requests_keep_caches_witness :
  let ops := [OpUpdateStatus; OpReqLaunchAppWithId "CC1AD845";
              OpReqVolumeLevel f32_1_7; OpReqMuted true;
              OpReqLoadURL ("http://10.0.0.2/a.mp4" : @URL spec_connection receiver) "video/mp4" true] in
  volume (exec_all ops abc123_dropped) = volume abc123_dropped
  /\ app (exec_all ops abc123_dropped) = app abc123_dropped
  /\ Service (exec_all ops abc123_dropped) = Service abc123_dropped.
Proof.
  apply (requests_keep_caches
           [OpUpdateStatus; OpReqLaunchAppWithId "CC1AD845";
            OpReqVolumeLevel f32_1_7; OpReqMuted true;
            OpReqLoadURL ("http://10.0.0.2/a.mp4" : @URL spec_connection receiver) "video/mp4" true]
           abc123_dropped).
  repeat constructor.
Defined.

Lemma UpdateStatus_after_merge_witness :
  let ops := [OpSetVolume half_volume; OpReqMuted true; OpSetApp backdrop;
              OpUpdateStatus] in
  UpdateStatus (exec_all ops abc123_connected)
  = (None, exec_all ops abc123_connected, []).
Proof.
  apply (UpdateStatus_after_merge
           [OpSetVolume half_volume; OpReqMuted true; OpSetApp backdrop; OpUpdateStatus]
           half_volume backdrop abc123_connected).
  - repeat constructor.
  - simpl. auto.
  - simpl. auto.
Defined.

Lemma ConnectWithTimeout_then_witness :
  let c := final (ConnectWithTimeout 2000000000 1%nat 2%nat abc123_dropped) in
  ReqLoadURL ("http://10.0.0.2/a.mp4" : @URL spec_connection receiver) "video/mp4" true c
  = (Some (ErrOutOfOrder ["transportId"]), c, [])
  /\ UpdateStatus c = request GetStatus c
  /\ encodes (trace (UpdateStatus c)) = [GetStatus]
  /\ Service c = rs abc123_dropped.
Proof.
  apply (ConnectWithTimeout_then 2000000000 1%nat 2%nat abc123_dropped
           ("http://10.0.0.2/a.mp4" : @URL spec_connection receiver) "video/mp4" true).
  vm_compute. reflexivity.
Defined.

Lemma merge_twice_witness :
  SetVolume half_volume (final (SetVolume half_volume abc123))
  = ((CAST_FLAG_NONE, None), final (SetVolume half_volume abc123), [])
  /\ SetApp backdrop (final (SetApp backdrop abc123))
     = ((CAST_FLAG_NONE, None), final (SetApp backdrop abc123), []).
Proof.
  apply (merge_twice half_volume backdrop abc123); vm_compute; reflexivity.
Defined.

Lemma ReqVolumeLevel_clamps_witness :
  exists v : Volume,
    ReqVolumeLevel f32_1_7 abc123_connected
    = request (SetVolumeIntent v) abc123_connected
    /\ f32_le f32_zero (Level v) = true /\ f32_le (Level v) f32_one = true
    /\ (if f32_le f32_1_7 f32_zero then v = mkVolume f32_zero true
        else if f32_gt f32_1_7 f32_one then v = mkVolume f32_one false
        else v = mkVolume f32_1_7 false).
Proof.
  apply (ReqVolumeLevel_clamps f32_1_7 abc123_connected). reflexivity.
Defined.
